(** * Nexus-LLM: the WAV container builder and the audio-overview hook

    A shallow embedding of [addWavHeader] and [generateAudio] from
    [src/hooks/useNotebook.ts], together with the part of
    [services/geminiService] and [types] they rely on.

    - An [ArrayBuffer] is an object with identity: a location in a heap
      that maps locations to byte sequences.  [DataView] and [Uint8Array]
      are views (buffer, byte offset) onto such an object.
    - JavaScript code runs in a state-and-exception monad [M] over a
      [world]: the heap, the React state cell [audioOverview] and the
      chronological trace of interactions with the outside.
    - The numeric arguments of [addWavHeader] are integer-valued JavaScript
      numbers, embedded as [Z]; [DataView.setUint16]/[setUint32] reduce
      their argument modulo 2^16 / 2^32 (ToUint16 / ToUint32) before
      storing it.  Products are exact in double precision below 2^53,
      which covers every bound that appears in the statements below.
    - Memory is unbounded: [new ArrayBuffer(n)] always yields a buffer.
    - [generateAudio] is one invocation of the async function, its awaits
      run in program order; the two service requests and the browser's
      object-URL registry are parameters ([Collaborators]).
    - The other handlers of the hook and of [App] ([addSource],
      [removeSource], [saveNote], [sendMessage], [handleGenerateStudio],
      the notification timer), the request builders of
      [services/geminiService] and the two viewers of
      [components/NotesBoard] run over [AppState], the state cells of the
      component tree; the service, [crypto.randomUUID()] and [Date.now()]
      are parameters ([Env]), and handlers run one at a time. *)

From Stdlib Require Import ZArith Lia Strings.String Strings.Ascii.
From coqutil Require Import Byte Word.LittleEndianList.
From stdpp Require Import gmap list strings pretty.

Local Open Scope Z_scope.

(** ** Data model (types.ts) *)

Inductive SourceType := text | file.

Record Source := {
  id : string;
  name : string;
  content : string;
  mimeType : string;
  data : option string;
  type : SourceType;
  dateAdded : Z
}.

(** [AudioOverviewState['status']] *)
Inductive Status := idle | generating_script | synthesizing | ready | error.

(** [AudioOverviewState]; the optional field [error] of the source is
    [error_text] here, since [error] already names the status. *)
Record AudioOverviewState := {
  status : Status;
  audioUrl : option string;
  script : option string;
  error_text : option string
}.

(** ** Objects, exceptions, the world *)

(** Identity of an [ArrayBuffer]. *)
Abbreviation loc := positive.

Inductive exn :=
| RangeError
| TypeError
| Rejected (reason : string).

(** What an awaited collaborator call settles to. *)
Inductive settled (A : Type) :=
| Resolved (a : A)
| Failed (e : exn).
Arguments Resolved {A} a.
Arguments Failed {A} e.

(** Interactions of the hook with its surroundings, in program order. *)
Inductive event :=
| Call_generatePodcastScript (sources : list Source) (language : string)
| Return_generatePodcastScript (r : settled string)
| Call_synthesizePodcastAudio (script : string)
| Return_synthesizePodcastAudio (r : settled (list byte))
| CreateObjectURL (blob : list byte) (type : string) (url : string)
| ConsoleError (e : exn)
| SetAudioOverview (s : AudioOverviewState).

Record world := World {
  heap : gmap loc (list byte);
  audioOverview : AudioOverviewState;
  trace : list event
}.

Definition set_heap (f : gmap loc (list byte) → gmap loc (list byte)) (w : world) : world :=
  {| heap := f (heap w); audioOverview := audioOverview w; trace := trace w |}.

Definition log (e : event) (w : world) : world :=
  {| heap := heap w; audioOverview := audioOverview w; trace := trace w ++ [e] |}.

(** ** The monad of JavaScript computations *)

Inductive outcome (A : Type) :=
| Normal (a : A)
| Throw (e : exn).
Arguments Normal {A} a.
Arguments Throw {A} e.

Definition M (A : Type) : Type := world → outcome A * world.

#[global] Instance M_ret : MRet M := λ A a w, (Normal a, w).

#[global] Instance M_bind : MBind M := λ A B k c w,
  match c w with
  | (Normal a, w') => k a w'
  | (Throw e, w') => (Throw e, w')
  end.

Definition throw {A} (e : exn) : M A := λ w, (Throw e, w).

(** [try { body } catch (e) { handler }]: effects of [body] up to the
    throw are kept. *)
Definition try_catch {A} (body : M A) (handler : exn → M A) : M A := λ w,
  match body w with
  | (Normal a, w') => (Normal a, w')
  | (Throw e, w') => handler e w'
  end.

(** ** ArrayBuffer, DataView, Uint8Array *)

(** A view onto a buffer from [byteOffset] to the buffer's end. *)
Record View := { buffer : loc; byteOffset : nat }.

(** [new ArrayBuffer(n)]: a fresh, zero-filled object. *)
Definition new_ArrayBuffer (n : nat) : M loc := λ w,
  let l := fresh (dom (heap w)) in
  (Normal l, set_heap (<[l := replicate n Byte.x00]>) w).

(** [b.byteLength] *)
Definition byteLength (b : loc) : M nat := λ w,
  match heap w !! b with
  | Some bs => (Normal (length bs), w)
  | None => (Throw TypeError, w)
  end.

(** [new DataView(b)] *)
Definition new_DataView (b : loc) : View := {| buffer := b; byteOffset := 0 |}.

(** [new Uint8Array(b, off)]: RangeError when [off] lies beyond the buffer. *)
Definition new_Uint8Array (b : loc) (off : nat) : M View := λ w,
  match heap w !! b with
  | Some bs =>
      if decide (off ≤ length bs)%nat
      then (Normal {| buffer := b; byteOffset := off |}, w)
      else (Throw RangeError, w)
  | None => (Throw TypeError, w)
  end.

(** Overwrite [length new] bytes of [old] starting at index [i]. *)
Definition splice (i : nat) (new old : list byte) : list byte :=
  take i old ++ new ++ drop (i + length new) old.

(** Bounds-checked store of a byte run through a view. *)
Definition store (v : View) (off : nat) (bs : list byte) : M unit := λ w,
  match heap w !! buffer v with
  | Some old =>
      if decide (byteOffset v + off + length bs ≤ length old)%nat
      then (Normal tt, set_heap (<[buffer v := splice (byteOffset v + off) bs old]>) w)
      else (Throw RangeError, w)
  | None => (Throw TypeError, w)
  end.

(** Byte image of an unsigned [n]-byte integer: the value modulo
    [2^(8n)], least significant byte first when [littleEndian]. *)
Definition int_bytes (n : nat) (value : Z) (littleEndian : bool) : list byte :=
  if littleEndian then le_split n value else rev (le_split n value).

Definition setUint8 (view : View) (off : nat) (value : Z) : M unit :=
  store view off (int_bytes 1 value true).

Definition setUint16 (view : View) (off : nat) (value : Z) (littleEndian : bool) : M unit :=
  store view off (int_bytes 2 value littleEndian).

Definition setUint32 (view : View) (off : nat) (value : Z) (littleEndian : bool) : M unit :=
  store view off (int_bytes 4 value littleEndian).

(** [target.set(source)] for two [Uint8Array]s: the source bytes are read
    first, then stored at index 0 of the target. *)
Definition Uint8Array_set (target source : View) : M unit := λ w,
  match heap w !! buffer source with
  | Some bs => store target 0 (drop (byteOffset source) bs) w
  | None => (Throw TypeError, w)
  end.

(** [s.charCodeAt(i)] for the character [c] at index [i]. *)
Definition charCode (c : ascii) : Z := Z.of_N (N_of_ascii c).

(** ** addWavHeader (useNotebook.ts) *)

(** The loop of [writeString]: [rest] is [string] from index [i] on. *)
Fixpoint writeString_from (view : View) (offset i : nat) (rest : string) : M unit :=
  match rest with
  | EmptyString => mret tt
  | String c rest' =>
      setUint8 view (offset + i) (charCode c);;
      writeString_from view offset (S i) rest'
  end.

Definition writeString (view : View) (offset : nat) (string : string) : M unit :=
  writeString_from view offset 0 string.

Definition addWavHeader (samples : loc) (sampleRate numChannels : Z) : M loc :=
  samples_byteLength ← byteLength samples;
  buffer ← new_ArrayBuffer (44 + samples_byteLength);
  let view := new_DataView buffer in
  writeString view 0 "RIFF";;
  setUint32 view 4 (36 + Z.of_nat samples_byteLength) true;;
  writeString view 8 "WAVE";;
  writeString view 12 "fmt ";;
  setUint32 view 16 16 true;;
  setUint16 view 20 1 true;;
  setUint16 view 22 numChannels true;;
  setUint32 view 24 sampleRate true;;
  setUint32 view 28 (sampleRate * numChannels * 2) true;;
  setUint16 view 32 (numChannels * 2) true;;
  setUint16 view 34 16 true;;
  writeString view 36 "data";;
  setUint32 view 40 (Z.of_nat samples_byteLength) true;;
  target ← new_Uint8Array buffer 44;
  source ← new_Uint8Array samples 0;
  Uint8Array_set target source;;
  mret buffer.

(** ** Reading a buffer back *)

(** The unsigned little-endian integer held in bytes [off, off + n). *)
Definition uint_le_at (n off : nat) (bs : list byte) : option Z :=
  if decide (off + n ≤ length bs)%nat
  then Some (le_combine (take n (drop off bs)))
  else None.

Definition uint16_le_at := uint_le_at 2.
Definition uint32_le_at := uint_le_at 4.

(** Bytes [from, to) of a buffer. *)
Definition slice (from to : nat) (bs : list byte) : list byte :=
  take (to - from) (drop from bs).

(** The bytes of an ASCII string. *)
Definition ascii_bytes (s : string) : list byte :=
  (λ c, byte.of_Z (charCode c)) <$> list_ascii_of_string s.

(** The bytes of the buffer a computation returned, if it returned one. *)
Definition returned_bytes (r : outcome loc * world) : option (list byte) :=
  match r with
  | (Normal l, w) => heap w !! l
  | (Throw _, _) => None
  end.

(** ** The container layout of the specification (§4.1) *)

(** The 44-byte header the format table prescribes for a payload of
    [len] bytes; compared below with what [addWavHeader] writes. *)
Definition wav_header (len : nat) (sampleRate numChannels : Z) : list byte :=
  ascii_bytes "RIFF" ++ le_split 4 (36 + Z.of_nat len) ++
  ascii_bytes "WAVE" ++
  ascii_bytes "fmt " ++ le_split 4 16 ++
  le_split 2 1 ++ le_split 2 numChannels ++
  le_split 4 sampleRate ++ le_split 4 (sampleRate * numChannels * 2) ++
  le_split 2 (numChannels * 2) ++ le_split 2 16 ++
  ascii_bytes "data" ++ le_split 4 (Z.of_nat len).

(** ** Collaborators *)

(** The generative-AI service and the browser's URL registry, as seen
    from the hook: what each request settles to.  Request assembly and
    response decoding inside [services/geminiService] are part of the
    collaborator. *)
Record Collaborators := {
  script_reply : list Source → string → settled string;
  audio_reply : string → settled (list byte);
  object_url : list byte → string → string
}.

Definition emit (e : event) : M unit := λ w, (Normal tt, log e w).

(** [await p]: the value of a fulfilled promise, or its rejection thrown. *)
Definition await {A} (r : settled A) : M A :=
  match r with
  | Resolved a => mret a
  | Failed e => throw e
  end.

(** [generatePodcastScript(sources, language)] *)
Definition generatePodcastScript (env : Collaborators)
    (sources : list Source) (language : string) : M string :=
  emit (Call_generatePodcastScript sources language);;
  let r := script_reply env sources language in
  emit (Return_generatePodcastScript r);;
  await r.

(** [bytes.buffer] of a newly created and filled [Uint8Array]. *)
Definition new_buffer_of (bytes : list byte) : M loc := λ w,
  let l := fresh (dom (heap w)) in
  (Normal l, set_heap (<[l := bytes]>) w).

(** [synthesizePodcastAudio(script)]: on success the decoded bytes are
    returned as the buffer of a newly created [Uint8Array]. *)
Definition synthesizePodcastAudio (env : Collaborators) (script : string) : M loc :=
  emit (Call_synthesizePodcastAudio script);;
  let r := audio_reply env script in
  emit (Return_synthesizePodcastAudio r);;
  bytes ← await r;
  new_buffer_of bytes.

(** [URL.createObjectURL(new Blob([b], { type }))]: the blob is a
    snapshot of the buffer's bytes. *)
Definition createObjectURL_Blob (env : Collaborators) (b : loc) (type : string) : M string := λ w,
  match heap w !! b with
  | Some bs =>
      let url := object_url env bs type in
      (Normal url, log (CreateObjectURL bs type url) w)
  | None => (Throw TypeError, w)
  end.

Definition console_error (e : exn) : M unit := emit (ConsoleError e).

(** The setter of the [audioOverview] state cell. *)
Definition setAudioOverview (s : AudioOverviewState) : M unit := λ w,
  (Normal tt,
   log (SetAudioOverview s)
     {| heap := heap w; audioOverview := s; trace := trace w |}).

(** ** generateAudio (useNotebook.ts) *)

(** [sources] is the hook's state captured by the closure; [language]
    is [None] when the caller omits the argument. *)
Definition generateAudio (env : Collaborators)
    (sources : list Source) (language : option string) : M unit :=
  let language := default "English"%string language in
  if decide (length sources = 0%nat) then mret tt else
  setAudioOverview
    {| status := generating_script; audioUrl := None; script := None;
       error_text := None |};;
  try_catch
    (script ← generatePodcastScript env sources language;
     setAudioOverview
       {| status := synthesizing; audioUrl := None; script := Some script;
          error_text := None |};;
     audioBuffer ← synthesizePodcastAudio env script;
     wavBuffer ← addWavHeader audioBuffer 24000 1;
     audioUrl ← createObjectURL_Blob env wavBuffer "audio/wav";
     setAudioOverview
       {| status := ready; audioUrl := Some audioUrl; script := Some script;
          error_text := None |})
    (λ e,
     console_error e;;
     setAudioOverview
       {| status := error; audioUrl := None; script := None;
          error_text := Some "Failed to generate audio."%string |}).

(** The four states [generateAudio] sets. *)
Definition st_generating : AudioOverviewState :=
  {| status := generating_script; audioUrl := None; script := None;
     error_text := None |}.
Definition st_synthesizing (script : string) : AudioOverviewState :=
  {| status := synthesizing; audioUrl := None; script := Some script;
     error_text := None |}.
Definition st_ready (url script : string) : AudioOverviewState :=
  {| status := ready; audioUrl := Some url; script := Some script;
     error_text := None |}.
Definition st_error : AudioOverviewState :=
  {| status := error; audioUrl := None; script := None;
     error_text := Some "Failed to generate audio."%string |}.

(** ** Observations on a trace *)

(** The statuses the state cell was set to, in order. *)
Definition statuses (evs : list event) : list Status :=
  omap (λ e, match e with SetAudioOverview s => Some (status s) | _ => None end) evs.

Definition is_script_call (e : event) : bool :=
  match e with Call_generatePodcastScript _ _ => true | _ => false end.

Definition is_synth_call (e : event) : bool :=
  match e with Call_synthesizePodcastAudio _ => true | _ => false end.

(** The event reports a failure: a rejected request or a logged error. *)
Definition is_failure (e : event) : bool :=
  match e with
  | Return_generatePodcastScript (Failed _) => true
  | Return_synthesizePodcastAudio (Failed _) => true
  | ConsoleError _ => true
  | _ => false
  end.

Definition count_events (p : event → bool) (evs : list event) : nat :=
  length (filter (λ e, p e = true) evs).

(** ** Sample worlds *)

Definition idle_state : AudioOverviewState :=
  {| status := idle; audioUrl := None; script := None; error_text := None |}.

Definition heap0 : gmap loc (list byte) :=
  {[ 1%positive := [Byte.x01; Byte.x00; Byte.x02; Byte.x00] ]}.

Definition w0 : world :=
  {| heap := heap0; audioOverview := idle_state; trace := [] |}.

(** A second world: other objects, another state, a non-empty trace,
    and the same sample bytes under a different identity. *)
Definition w1 : world :=
  {| heap := {[ 5%positive := [Byte.xff];
                7%positive := [Byte.x01; Byte.x00; Byte.x02; Byte.x00] ]};
     audioOverview :=
       {| status := error; audioUrl := None; script := None;
          error_text := Some "Failed to generate audio."%string |};
     trace := [ConsoleError TypeError] |}.

(** An empty sample buffer. *)
Definition w_empty : world :=
  {| heap := {[ 1%positive := [] ]}; audioOverview := idle_state; trace := [] |}.

(** A sample buffer of 2^32 - 36 bytes. *)
Definition huge_samples : list byte := replicate (N.to_nat 4294967260) Byte.x00.

Definition w_huge : world :=
  {| heap := {[ 1%positive := huge_samples ]};
     audioOverview := idle_state; trace := [] |}.

Definition source0 : Source :=
  {| id := "s1"; name := "notes.txt"; content := "hello";
     mimeType := "text/plain"; data := None; type := text; dateAdded := 0 |}.

(** A service that answers both requests. *)
Definition env_ok : Collaborators :=
  {| script_reply := λ _ _, Resolved "Alex: Hi"%string;
     audio_reply := λ _, Resolved [Byte.x01; Byte.x00; Byte.x02; Byte.x00];
     object_url := λ _ _, "blob:1"%string |}.

(** A service whose speech synthesis is rejected. *)
Definition env_no_audio : Collaborators :=
  {| script_reply := λ _ _, Resolved "Alex: Hi"%string;
     audio_reply := λ _, Failed (Rejected "No audio data generated");
     object_url := λ _ _, "blob:1"%string |}.

(** ** The rest of the data model (types.ts) *)

Inductive StudioTaskType :=
  audio | video_script | mind_map | report | flashcards | quiz | summary.

#[global] Instance StudioTaskType_eq_dec : EqDecision StudioTaskType.
Proof. solve_decision. Defined.

Inductive NoteType := saved_response | user_note | studio_output.

Module Note.
Record t := {
  id : string;
  title : string;
  content : string;
  type : NoteType;
  tags : option (list StudioTaskType);
  dateCreated : Z
}.
End Note.

Module Role.
Inductive t := user | model.
End Role.

Module ChatMessage.
Record t := {
  id : string;
  role : Role.t;
  text : string;
  timestamp : Z;
  isThinking : option bool
}.
End ChatMessage.

(** ** The generative-AI client (@google/genai), as far as the code uses it *)

Inductive Part :=
| TextPart (text : string)
| InlineDataPart (mimeType : string) (data : string).

Record Content := { role : option string; parts : list Part }.

Record GenerateContentConfig := {
  systemInstruction : option string;
  thinkingBudget : option Z;
  responseMimeType : option string
}.

Record GenerateContentRequest := {
  model : string;
  contents : list Content;
  config : option GenerateContentConfig
}.

(** The part of a response the code reads: [response.text]. *)
Module Response.
Record t := { text : option string }.
End Response.

(** What surrounds the application: what the k-th call of
    [ai.models.generateContent] settles to for the request it is given,
    and the values the k-th call of [crypto.randomUUID()] and of
    [Date.now()] returns. *)
Record Env := {
  generateContent : nat → GenerateContentRequest → settled Response.t;
  randomUUID : nat → string;
  Date_now : nat → Z
}.

(** ** State of the component tree *)

(** The state cells of [useNotebook] ([sources], [notes], [history],
    [isGeneratingChat], [hasFetchedQuestions]) and of [App]
    ([notifications], [isStudioGenerating]), together with what the code
    does to its surroundings: the number of pending [setTimeout]
    callbacks, the requests sent, the errors logged, and how many UUIDs
    and clock readings were drawn. *)
Record AppState := {
  sources : list Source;
  notes : list Note.t;
  history : list ChatMessage.t;
  isGeneratingChat : bool;
  hasFetchedQuestions : bool;
  notifications : list string;
  isStudioGenerating : bool;
  timers : nat;
  requests : list GenerateContentRequest;
  console : list exn;
  uuids_drawn : nat;
  clock_reads : nat
}.

Definition set_sources (f : list Source → list Source) (st : AppState) : AppState :=
  {| sources := f (sources st);
     notes := notes st;
     history := history st;
     isGeneratingChat := isGeneratingChat st;
     hasFetchedQuestions := hasFetchedQuestions st;
     notifications := notifications st;
     isStudioGenerating := isStudioGenerating st;
     timers := timers st;
     requests := requests st;
     console := console st;
     uuids_drawn := uuids_drawn st;
     clock_reads := clock_reads st |}.

Definition set_notes (f : list Note.t → list Note.t) (st : AppState) : AppState :=
  {| sources := sources st;
     notes := f (notes st);
     history := history st;
     isGeneratingChat := isGeneratingChat st;
     hasFetchedQuestions := hasFetchedQuestions st;
     notifications := notifications st;
     isStudioGenerating := isStudioGenerating st;
     timers := timers st;
     requests := requests st;
     console := console st;
     uuids_drawn := uuids_drawn st;
     clock_reads := clock_reads st |}.

Definition set_history (f : list ChatMessage.t → list ChatMessage.t) (st : AppState) : AppState :=
  {| sources := sources st;
     notes := notes st;
     history := f (history st);
     isGeneratingChat := isGeneratingChat st;
     hasFetchedQuestions := hasFetchedQuestions st;
     notifications := notifications st;
     isStudioGenerating := isStudioGenerating st;
     timers := timers st;
     requests := requests st;
     console := console st;
     uuids_drawn := uuids_drawn st;
     clock_reads := clock_reads st |}.

Definition set_isGeneratingChat (f : bool → bool) (st : AppState) : AppState :=
  {| sources := sources st;
     notes := notes st;
     history := history st;
     isGeneratingChat := f (isGeneratingChat st);
     hasFetchedQuestions := hasFetchedQuestions st;
     notifications := notifications st;
     isStudioGenerating := isStudioGenerating st;
     timers := timers st;
     requests := requests st;
     console := console st;
     uuids_drawn := uuids_drawn st;
     clock_reads := clock_reads st |}.

Definition set_hasFetchedQuestions (f : bool → bool) (st : AppState) : AppState :=
  {| sources := sources st;
     notes := notes st;
     history := history st;
     isGeneratingChat := isGeneratingChat st;
     hasFetchedQuestions := f (hasFetchedQuestions st);
     notifications := notifications st;
     isStudioGenerating := isStudioGenerating st;
     timers := timers st;
     requests := requests st;
     console := console st;
     uuids_drawn := uuids_drawn st;
     clock_reads := clock_reads st |}.

Definition set_notifications (f : list string → list string) (st : AppState) : AppState :=
  {| sources := sources st;
     notes := notes st;
     history := history st;
     isGeneratingChat := isGeneratingChat st;
     hasFetchedQuestions := hasFetchedQuestions st;
     notifications := f (notifications st);
     isStudioGenerating := isStudioGenerating st;
     timers := timers st;
     requests := requests st;
     console := console st;
     uuids_drawn := uuids_drawn st;
     clock_reads := clock_reads st |}.

Definition set_isStudioGenerating (f : bool → bool) (st : AppState) : AppState :=
  {| sources := sources st;
     notes := notes st;
     history := history st;
     isGeneratingChat := isGeneratingChat st;
     hasFetchedQuestions := hasFetchedQuestions st;
     notifications := notifications st;
     isStudioGenerating := f (isStudioGenerating st);
     timers := timers st;
     requests := requests st;
     console := console st;
     uuids_drawn := uuids_drawn st;
     clock_reads := clock_reads st |}.

Definition set_timers (f : nat → nat) (st : AppState) : AppState :=
  {| sources := sources st;
     notes := notes st;
     history := history st;
     isGeneratingChat := isGeneratingChat st;
     hasFetchedQuestions := hasFetchedQuestions st;
     notifications := notifications st;
     isStudioGenerating := isStudioGenerating st;
     timers := f (timers st);
     requests := requests st;
     console := console st;
     uuids_drawn := uuids_drawn st;
     clock_reads := clock_reads st |}.

Definition set_requests (f : list GenerateContentRequest → list GenerateContentRequest) (st : AppState) : AppState :=
  {| sources := sources st;
     notes := notes st;
     history := history st;
     isGeneratingChat := isGeneratingChat st;
     hasFetchedQuestions := hasFetchedQuestions st;
     notifications := notifications st;
     isStudioGenerating := isStudioGenerating st;
     timers := timers st;
     requests := f (requests st);
     console := console st;
     uuids_drawn := uuids_drawn st;
     clock_reads := clock_reads st |}.

Definition set_console (f : list exn → list exn) (st : AppState) : AppState :=
  {| sources := sources st;
     notes := notes st;
     history := history st;
     isGeneratingChat := isGeneratingChat st;
     hasFetchedQuestions := hasFetchedQuestions st;
     notifications := notifications st;
     isStudioGenerating := isStudioGenerating st;
     timers := timers st;
     requests := requests st;
     console := f (console st);
     uuids_drawn := uuids_drawn st;
     clock_reads := clock_reads st |}.

Definition set_uuids_drawn (f : nat → nat) (st : AppState) : AppState :=
  {| sources := sources st;
     notes := notes st;
     history := history st;
     isGeneratingChat := isGeneratingChat st;
     hasFetchedQuestions := hasFetchedQuestions st;
     notifications := notifications st;
     isStudioGenerating := isStudioGenerating st;
     timers := timers st;
     requests := requests st;
     console := console st;
     uuids_drawn := f (uuids_drawn st);
     clock_reads := clock_reads st |}.

Definition set_clock_reads (f : nat → nat) (st : AppState) : AppState :=
  {| sources := sources st;
     notes := notes st;
     history := history st;
     isGeneratingChat := isGeneratingChat st;
     hasFetchedQuestions := hasFetchedQuestions st;
     notifications := notifications st;
     isStudioGenerating := isStudioGenerating st;
     timers := timers st;
     requests := requests st;
     console := console st;
     uuids_drawn := uuids_drawn st;
     clock_reads := f (clock_reads st) |}.

(** The state after mounting: [useState] initial values. *)
Definition initial_state : AppState :=
  {| sources := []; notes := []; history := [];
     isGeneratingChat := false; hasFetchedQuestions := false;
     notifications := []; isStudioGenerating := false;
     timers := 0; requests := []; console := [];
     uuids_drawn := 0; clock_reads := 0 |}.

(** Computations of event handlers over [AppState]. *)
Definition UI (A : Type) : Type := AppState → outcome A * AppState.

#[global] Instance UI_ret : MRet UI := λ A a st, (Normal a, st).

#[global] Instance UI_bind : MBind UI := λ A B k c st,
  match c st with
  | (Normal a, st') => k a st'
  | (Throw e, st') => (Throw e, st')
  end.

Definition ui_get {A} (cell : AppState → A) : UI A := λ st, (Normal (cell st), st).

Definition ui_update (f : AppState → AppState) : UI unit := λ st, (Normal tt, f st).

(** [await p] *)
Definition ui_await {A} (r : settled A) : UI A := λ st,
  match r with
  | Resolved a => (Normal a, st)
  | Failed e => (Throw e, st)
  end.

(** [try { body } catch (e) { handler } finally { finalizer }] *)
Definition ui_try_catch_finally {A} (body : UI A) (handler : exn → UI A)
    (finalizer : UI unit) : UI A := λ st,
  let caught :=
    match body st with
    | (Normal a, st') => (Normal a, st')
    | (Throw e, st') => handler e st'
    end in
  match finalizer (snd caught) with
  | (Normal _, st'') => (fst caught, st'')
  | (Throw e, st'') => (Throw e, st'')
  end.

(** [crypto.randomUUID()] *)
Definition ui_randomUUID (env : Env) : UI string := λ st,
  (Normal (randomUUID env (uuids_drawn st)), set_uuids_drawn S st).

(** [Date.now()] *)
Definition ui_Date_now (env : Env) : UI Z := λ st,
  (Normal (Date_now env (clock_reads st)), set_clock_reads S st).

(** [await ai.models.generateContent(request)] *)
Definition ui_generateContent (env : Env) (request : GenerateContentRequest) : UI Response.t :=
  k ← ui_get (λ st, length (requests st));
  ui_update (set_requests (λ prev, prev ++ [request]));;
  ui_await (generateContent env k request).

(** [console.error(e)] *)
Definition ui_console_error (e : exn) : UI unit :=
  ui_update (set_console (λ prev, prev ++ [e])).

(** ** Strings of JavaScript *)

(** The line feed and the double quote. *)
Definition nl : string := String (ascii_of_nat 10) EmptyString.
Definition dq : string := String (ascii_of_nat 34) EmptyString.

(** [a || b] on strings that may be [undefined]: [b] when [a] is
    [undefined] or empty. *)
Definition or_else (a : option string) (b : string) : string :=
  match a with
  | Some s => if String.eqb s "" then b else s
  | None => b
  end.

(** Truthiness of an optional string. *)
Definition truthy (a : option string) : bool :=
  match a with
  | Some s => negb (String.eqb s "")
  | None => false
  end.

(** [s.replace(c, d)] for one-character patterns: the first occurrence
    only. *)
Fixpoint replace_first (c d : ascii) (s : string) : string :=
  match s with
  | EmptyString => EmptyString
  | String x rest =>
      if Ascii.eqb x c then String d rest else String x (replace_first c d rest)
  end.

(** ** synthesizePodcastAudio: decoding the response (geminiService) *)

(** [bytes[i] = value] on a [Uint8Array]: the value modulo 256 is stored;
    an index beyond the array is ignored. *)
Definition Uint8Array_put (bytes : View) (i : nat) (value : Z) : M unit := λ w,
  match heap w !! buffer bytes with
  | Some old =>
      if decide (byteOffset bytes + i < length old)%nat
      then store bytes i (int_bytes 1 value true) w
      else (Normal tt, w)
  | None => (Throw TypeError, w)
  end.

(** The copying loop: [rest] is [binaryString] from index [i] on. *)
Fixpoint fill_bytes_from (bytes : View) (i : nat) (rest : string) : M unit :=
  match rest with
  | EmptyString => mret tt
  | String c rest' =>
      Uint8Array_put bytes i (charCode c);;
      fill_bytes_from bytes (S i) rest'
  end.

(** What [synthesizePodcastAudio] does with the response once it has
    arrived: [base64Audio] is the inline data of its first part, [None]
    when any link of the optional chain is missing; [atob] is the
    browser's base64 decoder, which may throw. *)
Definition decodeInlineAudio (atob : string → settled string)
    (base64Audio : option string) : M loc :=
  if negb (truthy base64Audio)
  then throw (Rejected "No audio data generated")
  else
    binaryString ← await (atob (default ""%string base64Audio));
    let len := String.length binaryString in
    buffer ← new_ArrayBuffer len;
    bytes ← new_Uint8Array buffer 0;
    fill_bytes_from bytes 0 binaryString;;
    mret buffer.

(** A decoder for the samples: it knows one base64 string. *)
Definition atob0 (s : string) : settled string :=
  if String.eqb s "AQACAA=="
  then Resolved (String (ascii_of_nat 1) (String (ascii_of_nat 0)
                   (String (ascii_of_nat 2) (String (ascii_of_nat 0) EmptyString))))
  else Failed (Rejected "InvalidCharacterError").

(** ** services/geminiService *)

Definition getSourceParts (sources : list Source) : list Part :=
  (λ s,
     if String.eqb (mimeType s) "application/pdf" && truthy (data s)
     then InlineDataPart "application/pdf" (default ""%string (data s))
     else TextPart ("--- SOURCE: " ++ name s ++ " ---" ++ nl ++ content s ++ nl
                    ++ "--- END SOURCE ---")) <$> sources.

Definition SYSTEM_INSTRUCTION : string :=
  "Nexus LLM functions as a source-grounded notebook." ++ nl ++ "Core Rules:" ++ nl ++ "- Sources are authoritative." ++ nl ++ "- No hallucination." ++ nl ++ "- Academic but accessible tone." ++ nl ++ "- If asking for structured output (JSON), output ONLY JSON.".

(** The [contents] array [generateChatResponse] builds. *)
Definition chat_contents (sources : list Source) (history : list ChatMessage.t)
    (newMessage : string) : list Content :=
  let sourceParts := getSourceParts sources in
  [ {| role := Some "user"%string;
       parts := TextPart "System: Here are the sources for this session. Use them to answer all future questions."
                :: sourceParts |};
    {| role := Some "model"%string;
       parts := [TextPart "Understood. I have processed the sources."] |} ]
  ++ ((λ msg,
         {| role := Some (match ChatMessage.role msg with
                          | Role.user => "user"
                          | Role.model => "model"
                          end)%string;
            parts := [TextPart (ChatMessage.text msg)] |}) <$> history)
  ++ [ {| role := Some "user"%string; parts := [TextPart newMessage] |} ].

Definition generateChatResponse (env : Env) (sources : list Source)
    (history : list ChatMessage.t) (newMessage : string) : UI string :=
  let contents := chat_contents sources history newMessage in
  response ← ui_generateContent env
    {| model := "gemini-3-flash-preview";
       contents := contents;
       config := Some {| systemInstruction := Some SYSTEM_INSTRUCTION;
                         thinkingBudget := Some 0;
                         responseMimeType := None |} |};
  mret (or_else (Response.text response)
          "I couldn't generate a response based on these sources.").

(** The [switch] of [generateStudioContent]: prompt, title, isJson. *)
Definition studio_task (task : StudioTaskType) : string * string * bool :=
  match task with
  | summary =>
      ("Create a comprehensive summary of the provided sources. Use headings and bullet points."%string,
       "Briefing Document"%string, false)
  | flashcards => (("Create 10 flashcards based on key concepts. " ++ nl ++ "            Return STRICT JSON array: [{" ++ dq ++ "front" ++ dq ++ ": " ++ dq ++ "Question/Term" ++ dq ++ ", " ++ dq ++ "back" ++ dq ++ ": " ++ dq ++ "Answer/Definition" ++ dq ++ "}]")%string, "Flashcards"%string, true)
  | quiz => (("Create a quiz with 5 multiple choice questions." ++ nl ++ "            Return STRICT JSON array: [{" ++ dq ++ "question" ++ dq ++ ": " ++ dq ++ "..." ++ dq ++ ", " ++ dq ++ "options" ++ dq ++ ": [" ++ dq ++ "A" ++ dq ++ ", " ++ dq ++ "B" ++ dq ++ ", " ++ dq ++ "C" ++ dq ++ ", " ++ dq ++ "D" ++ dq ++ "], " ++ dq ++ "answer" ++ dq ++ ": " ++ dq ++ "The correct option text" ++ dq ++ "}]")%string, "Practice Quiz"%string, true)
  | mind_map =>
      ("Generate a text-based Mind Map using hierarchical bullet points to show relationships between concepts."%string,
       "Mind Map"%string, false)
  | video_script =>
      ("Write a structured educational video script. Include 'Intro', 'Key Points', and 'Conclusion'."%string,
       "Video Script"%string, false)
  | report =>
      ("Write a formal report with Introduction, Body, and Conclusion."%string,
       "Formal Report"%string, false)
  | audio => ("Summarize the key insights."%string, "Summary"%string, false)
  end.

(** The value [generateStudioContent] resolves to. *)
Record StudioContent := { sc_title : string; sc_content : string }.

Definition generateStudioContent (env : Env) (sources : list Source)
    (task : StudioTaskType) : UI StudioContent :=
  let sourceParts := getSourceParts sources in
  let contextParts := TextPart "System: Use the following sources." :: sourceParts in
  let '(prompt, title, isJson) := studio_task task in
  response ← ui_generateContent env
    {| model := "gemini-3-flash-preview";
       contents := [ {| role := Some "user"%string; parts := contextParts |};
                     {| role := Some "user"%string; parts := [TextPart prompt] |} ];
       config := Some {| systemInstruction := None;
                         thinkingBudget := None;
                         responseMimeType :=
                           Some (if isJson then "application/json" else "text/plain")%string |} |};
  mret {| sc_title := title;
          sc_content := or_else (Response.text response)
                          (if isJson then "[]" else "Failed to generate content.") |}.

(** ** useNotebook.ts: the remaining handlers *)

Definition addSource (env : Env) (name content mimeType : string)
    (data : option string) : UI unit :=
  id ← ui_randomUUID env;
  dateAdded ← ui_Date_now env;
  let newSource :=
    {| id := id; name := name; content := content; mimeType := mimeType;
       data := data;
       type := if String.eqb mimeType "text/plain" then text else file;
       dateAdded := dateAdded |} in
  ui_update (set_sources (λ prev, prev ++ [newSource]));;
  ui_update (set_hasFetchedQuestions (λ _, false)).

Definition removeSource (id' : string) : UI unit :=
  ui_update (set_sources (λ prev, filter (λ s, id s ≠ id') prev)).

(** [type] and [tags] are [None] when the caller omits them. *)
Definition saveNote (env : Env) (title content : string)
    (type : option NoteType) (tags : option (list StudioTaskType)) : UI unit :=
  let type := default saved_response type in
  let tags := default [] tags in
  id ← ui_randomUUID env;
  dateCreated ← ui_Date_now env;
  let newNote :=
    {| Note.id := id; Note.title := title; Note.content := content;
       Note.type := type; Note.tags := Some tags;
       Note.dateCreated := dateCreated |} in
  ui_update (set_notes (λ prev, newNote :: prev)).

(** [sources] and [history] are the values the handler's closure holds:
    those of the state it is called in. *)
Definition sendMessage (env : Env) (text : string) : UI unit :=
  sources ← ui_get sources;
  history ← ui_get history;
  id ← ui_randomUUID env;
  timestamp ← ui_Date_now env;
  let userMsg :=
    {| ChatMessage.id := id; ChatMessage.role := Role.user;
       ChatMessage.text := text; ChatMessage.timestamp := timestamp;
       ChatMessage.isThinking := None |} in
  ui_update (set_history (λ prev, prev ++ [userMsg]));;
  ui_update (set_isGeneratingChat (λ _, true));;
  ui_try_catch_finally
    (responseText ← generateChatResponse env sources history text;
     id ← ui_randomUUID env;
     timestamp ← ui_Date_now env;
     let botMsg :=
       {| ChatMessage.id := id; ChatMessage.role := Role.model;
          ChatMessage.text := responseText; ChatMessage.timestamp := timestamp;
          ChatMessage.isThinking := None |} in
     ui_update (set_history (λ prev, prev ++ [botMsg])))
    (λ error,
     ui_console_error error;;
     id ← ui_randomUUID env;
     timestamp ← ui_Date_now env;
     let errorMsg :=
       {| ChatMessage.id := id; ChatMessage.role := Role.model;
          ChatMessage.text := "I encountered an error connecting to the Nexus core. Please check your connection or API Key.";
          ChatMessage.timestamp := timestamp;
          ChatMessage.isThinking := None |} in
     ui_update (set_history (λ prev, prev ++ [errorMsg])))
    (ui_update (set_isGeneratingChat (λ _, false))).

(** ** App.tsx *)

(** [setTimeout(callback, 3000)]: one more callback is pending. *)
Definition setTimeout_expiry : UI unit := ui_update (set_timers S).

Definition addNotification (msg : string) : UI unit :=
  ui_update (set_notifications (λ prev, msg :: prev));;
  setTimeout_expiry.

(** The callback [addNotification] schedules, run when its timer fires:
    [prev.slice(0, prev.length - 1)]. *)
Definition notification_expires : UI unit :=
  ui_update (set_timers Nat.pred);;
  ui_update (set_notifications (λ prev, take (length prev - 1) prev)).

Definition handleAddSource (env : Env) (name content mimeType : string)
    (data : option string) : UI unit :=
  addSource env name content mimeType data;;
  addNotification ("Added source: " ++ name)%string.

(** The literal a [StudioTaskType] value is. *)
Definition task_string (task : StudioTaskType) : string :=
  match task with
  | audio => "audio"
  | video_script => "video_script"
  | mind_map => "mind_map"
  | report => "report"
  | flashcards => "flashcards"
  | quiz => "quiz"
  | summary => "summary"
  end.

Definition handleGenerateStudio (env : Env) (task : StudioTaskType) : UI unit :=
  sources ← ui_get sources;
  if decide (length sources = 0%nat) then addNotification "Add sources first!" else
  ui_update (set_isStudioGenerating (λ _, true));;
  addNotification ("Generating " ++ replace_first "_" " " (task_string task) ++ "...")%string;;
  ui_try_catch_finally
    (result ← generateStudioContent env sources task;
     let type :=
       if bool_decide (task = quiz ∨ task = flashcards)
       then studio_output else saved_response in
     saveNote env (sc_title result) (sc_content result) (Some type) (Some [task]);;
     addNotification (sc_title result ++ " created!")%string)
    (λ e,
     addNotification "Failed to generate content.";;
     ui_console_error e)
    (ui_update (set_isStudioGenerating (λ _, false))).

(** What can happen to the mounted application, one thing at a time: a
    handler runs to its end (its request settled) before the next one
    starts. *)
Inductive Action :=
| AddSource (name content mimeType : string) (data : option string)
| RemoveSource (id : string)
| SendMessage (text : string)
| GenerateStudio (task : StudioTaskType)
| NotificationExpires.

Definition handler (env : Env) (a : Action) : UI unit :=
  match a with
  | AddSource name content mimeType data => handleAddSource env name content mimeType data
  | RemoveSource id => removeSource id
  | SendMessage message => sendMessage env message
  | GenerateStudio task => handleGenerateStudio env task
  | NotificationExpires =>
      timers ← ui_get timers;
      if decide (timers = 0%nat) then mret tt else notification_expires
  end.

Definition run_actions (env : Env) (actions : list Action) (st : AppState) : AppState :=
  foldl (λ st a, snd (handler env a st)) st actions.

(** ** Requests and observations used in the statements *)

(** The request [generateChatResponse] sends. *)
Definition chat_request (sources : list Source) (history : list ChatMessage.t)
    (newMessage : string) : GenerateContentRequest :=
  {| model := "gemini-3-flash-preview";
     contents := chat_contents sources history newMessage;
     config := Some {| systemInstruction := Some SYSTEM_INSTRUCTION;
                       thinkingBudget := Some 0;
                       responseMimeType := None |} |}.

(** The request [generateStudioContent] sends. *)
Definition studio_request (sources : list Source) (task : StudioTaskType) : GenerateContentRequest :=
  {| model := "gemini-3-flash-preview";
     contents :=
       [ {| role := Some "user"%string;
            parts := TextPart "System: Use the following sources."
                     :: getSourceParts sources |};
         {| role := Some "user"%string;
            parts := [TextPart (studio_task task).1.1] |} ];
     config := Some {| systemInstruction := None;
                       thinkingBudget := None;
                       responseMimeType :=
                         Some (if (studio_task task).2
                               then "application/json" else "text/plain")%string |} |}.

(** [n] exchanges: user, model, user, model, ... *)
Definition chat_turns (n : nat) : list Role.t :=
  mjoin (replicate n [Role.user; Role.model]).

Definition role_string (r : Role.t) : string :=
  match r with Role.user => "user" | Role.model => "model" end.

Definition is_send (a : Action) : bool :=
  match a with SendMessage _ => true | _ => false end.

(** The number of [SendMessage] actions in a run. *)
Definition sent (actions : list Action) : nat :=
  length (filter (λ a, is_send a = true) actions).

(** All identifiers held in the state: of sources, notes and messages. *)
Definition all_ids (st : AppState) : list string :=
  (id <$> sources st) ++ (Note.id <$> notes st) ++ (ChatMessage.id <$> history st).

(** The identifiers [ids] are pairwise distinct, and each of them is one
    of the first [n] values of [crypto.randomUUID()]. *)
Definition drawn_ids (env : Env) (ids : list string) (n : nat) : Prop :=
  NoDup ids ∧ ∀ x, x ∈ ids → ∃ k, (k < n)%nat ∧ x = randomUUID env k.

(** ** components/NotesBoard.tsx: the two viewers *)

(** [FlashcardViewer]: the handlers of the two arrow buttons, for a deck
    of [len] cards. *)
Definition flashcard_prev (index : Z) : Z := Z.max 0 (index - 1).
Definition flashcard_next (len index : Z) : Z := Z.min (len - 1) (index + 1).

Inductive FlashcardClick := ClickPrev | ClickNext.

Definition flashcard_click (len : Z) (index : Z) (c : FlashcardClick) : Z :=
  match c with
  | ClickPrev => flashcard_prev index
  | ClickNext => flashcard_next len index
  end.

(** A parsed quiz question. *)
Record Question := { question : string; options : list string; answer : string }.

(** [QuizViewer]: [handleSelect], the [disabled] attribute of the
    check button and [score]; [answers] is the object keyed by question
    index. *)
Definition handleSelect (showResults : bool) (qIndex : nat) (option : string)
    (answers : gmap nat string) : gmap nat string :=
  if showResults then answers else <[qIndex := option]> answers.

Definition check_disabled (questions : list Question) (answers : gmap nat string) : bool :=
  bool_decide (size answers < length questions)%nat.

Definition score (questions : list Question) (answers : gmap nat string) : nat :=
  length (filter (λ iq, answers !! iq.1 = Some (answer iq.2)) (imap pair questions)).

(** The answers a sequence of selections leaves, made before the results
    are shown and starting from the empty object. *)
Definition answers_after (selections : list (nat * string)) : gmap nat string :=
  foldl (λ answers sel, handleSelect false sel.1 sel.2 answers) ∅ selections.

Definition quiz0 : list Question :=
  [ {| question := "1 + 1"; options := ["1"; "2"]; answer := "2" |};
    {| question := "2 + 2"; options := ["4"; "5"]; answer := "4" |} ].

(** ** Sample surroundings *)

Definition env_chat (reply : settled Response.t) : Env :=
  {| generateContent := λ _ _, reply;
     randomUUID := λ k, pretty k;
     Date_now := λ k, 1700000000000 + Z.of_nat k |}.

Definition pdf_source : Source :=
  {| id := "p1"; name := "paper.pdf"; content := "";
     mimeType := "application/pdf"; data := Some "JVBERi0="%string;
     type := file; dateAdded := 0 |}.

Definition pdf_without_data : Source :=
  {| id := "p2"; name := "empty.pdf"; content := "";
     mimeType := "application/pdf"; data := Some ""%string;
     type := file; dateAdded := 0 |}.


(** A service that answers every request with an empty response. *)
Definition env_silent : Env := env_chat (Resolved {| Response.text := None |}).

(** A service that rejects every request. *)
Definition env_down : Env := env_chat (Failed (Rejected "503")).

(** The mounted application after one pasted source was added. *)
Definition st_one_source : AppState :=
  snd (handleAddSource env_silent "notes.txt" "hello" "text/plain" None initial_state).

(** * Proofs *)

(** ** Running the primitives *)

Lemma bind_Normal {A B} (c : M A) (k : A → M B) w a w' :
  c w = (Normal a, w') → (c ≫= k) w = k a w'.
Proof. intros Hc. unfold mbind, M_bind. by rewrite Hc. Qed.

Lemma length_splice i new old :
  (i + length new ≤ length old)%nat → length (splice i new old) = length old.
Proof.
  intros Hle. unfold splice.
  rewrite !length_app, length_take, length_drop. lia.
Qed.

Lemma store_insert v off bs old h a t :
  (byteOffset v + off + length bs ≤ length old)%nat →
  store v off bs (World (<[buffer v := old]> h) a t)
  = (Normal tt, World (<[buffer v := splice (byteOffset v + off) bs old]> h) a t).
Proof.
  intros Hle. unfold store, set_heap. simpl.
  rewrite lookup_insert_eq, decide_True by done.
  by rewrite insert_insert_eq.
Qed.

Lemma new_Uint8Array_run b off bs w :
  heap w !! b = Some bs → (off ≤ length bs)%nat →
  new_Uint8Array b off w = (Normal {| buffer := b; byteOffset := off |}, w).
Proof. intros Hb Hle. unfold new_Uint8Array. by rewrite Hb, decide_True. Qed.

Lemma splice_snoc i b bs old :
  (i + S (length bs) ≤ length old)%nat →
  splice (S i) bs (splice i [b] old) = splice i (b :: bs) old.
Proof.
  intros Hle. unfold splice. simpl length.
  assert (Hi : length (take i old) = i) by (rewrite length_take; lia).
  rewrite (app_assoc (take i old) [b]).
  assert (Hi' : length (take i old ++ [b]) = S i)
    by (rewrite length_app; simpl; lia).
  rewrite take_app_length' by done.
  replace (S i + length bs)%nat with (length (take i old ++ [b]) + length bs)%nat by lia.
  rewrite drop_app_add, drop_drop.
  rewrite <- app_assoc. simpl. do 4 f_equal. lia.
Qed.

Lemma length_ascii_bytes s : length (ascii_bytes s) = String.length s.
Proof.
  unfold ascii_bytes. rewrite length_fmap.
  induction s as [|c s IH]; simpl; congruence.
Qed.

Lemma splice_nil i old : (i ≤ length old)%nat → splice i [] old = old.
Proof. intros _. unfold splice. simpl. rewrite Nat.add_0_r. apply take_drop. Qed.

(** The loop of [writeString] amounts to one block store of the
    characters' codes. *)
Lemma writeString_from_run rest : ∀ v offset i old h a t,
  (byteOffset v + (offset + i) + String.length rest ≤ length old)%nat →
  writeString_from v offset i rest (World (<[buffer v := old]> h) a t)
  = (Normal tt,
     World (<[buffer v := splice (byteOffset v + (offset + i)) (ascii_bytes rest) old]> h) a t).
Proof.
  induction rest as [|c rest IH]; intros v offset i old h a t Hle; simpl in Hle.
  - simpl. by rewrite splice_nil by lia.
  - cbn [writeString_from]. unfold setUint8.
    erewrite bind_Normal; [ | apply store_insert; simpl; lia ].
    rewrite IH by (rewrite length_splice; simpl; lia).
    replace (byteOffset v + (offset + S i))%nat
      with (S (byteOffset v + (offset + i))) by lia.
    change (int_bytes 1 (charCode c) true) with [byte.of_Z (charCode c)].
    rewrite splice_snoc by (rewrite length_ascii_bytes; lia).
    reflexivity.
Qed.

Lemma writeString_run string v offset old h a t :
  (byteOffset v + offset + String.length string ≤ length old)%nat →
  writeString v offset string (World (<[buffer v := old]> h) a t)
  = (Normal tt,
     World (<[buffer v := splice (byteOffset v + offset) (ascii_bytes string) old]> h) a t).
Proof.
  intros Hle. unfold writeString.
  rewrite writeString_from_run by lia.
  by rewrite Nat.add_0_r.
Qed.

Ltac run_with lem :=
  erewrite bind_Normal; [ | lem ]; cbv beta.

Ltac side_bound := simpl; rewrite ?length_drop, ?length_replicate; lia.

Ltac tidy_buffer :=
  unfold int_bytes, le_split;
  cbn [splice firstn skipn app length int_bytes le_split Nat.add
       byteOffset buffer new_DataView ascii_bytes fmap list_fmap
       list_ascii_of_string].

Ltac run_store :=
  run_with ltac:(first [ apply store_insert; side_bound
                       | apply writeString_run; side_bound ]);
  tidy_buffer.

Lemma fresh_loc_ne (h : gmap loc (list byte)) l :
  is_Some (h !! l) → fresh (dom h) ≠ l.
Proof.
  intros Hl%elem_of_dom Heq. apply (is_fresh (dom h)). by rewrite Heq.
Qed.

Lemma drop_replicate_all {A} (x : A) n : drop n (replicate n x) = [].
Proof. apply drop_ge. by rewrite length_replicate. Qed.

(** [addWavHeader] allocates one new buffer and leaves in it the header
    of the format table followed by the samples. *)
Lemma addWavHeader_run samples sampleRate numChannels w s :
  heap w !! samples = Some s →
  addWavHeader samples sampleRate numChannels w
  = (Normal (fresh (dom (heap w))),
     set_heap (<[fresh (dom (heap w)) := wav_header (length s) sampleRate numChannels ++ s]>) w).
Proof.
  intros Hs. destruct w as [h a t]. cbn [heap] in *.
  assert (Hne : fresh (dom h) ≠ samples) by (apply fresh_loc_ne; eauto).
  unfold addWavHeader.
  run_with ltac:(unfold byteLength; cbn [heap]; rewrite Hs; reflexivity).
  run_with ltac:(reflexivity).
  unfold set_heap; cbn [heap audioOverview trace].
  set (out := fresh (dom h)) in *.
  cbn [replicate Nat.add].
  unfold setUint16, setUint32.
  do 13 run_store.
  run_with ltac:(eapply new_Uint8Array_run;
                 [ cbn [heap]; apply lookup_insert_eq | side_bound ]).
  run_with ltac:(eapply new_Uint8Array_run;
                 [ cbn [heap]; rewrite lookup_insert_ne by done; exact Hs
                 | lia ]).
  unfold Uint8Array_set at 1.
  unfold mbind at 1, M_bind at 1.
  cbn [heap buffer byteOffset].
  rewrite lookup_insert_ne by done. rewrite Hs.
  rewrite !drop_0.
  rewrite store_insert by side_bound.
  cbn [splice firstn skipn app length Nat.add byteOffset buffer].
  rewrite drop_replicate_all, app_nil_r.
  reflexivity.
Qed.

Example addWavHeader_scenario :
  returned_bytes (addWavHeader 1%positive 24000 1 w0)
  = Some (wav_header 4 24000 1 ++ [Byte.x01; Byte.x00; Byte.x02; Byte.x00]).
Proof. vm_compute. reflexivity. Qed.

(** ** What the returned buffer holds *)

Lemma addWavHeader_returns samples sampleRate numChannels w s :
  heap w !! samples = Some s →
  returned_bytes (addWavHeader samples sampleRate numChannels w)
  = Some (wav_header (length s) sampleRate numChannels ++ s).
Proof.
  intros Hs. rewrite (addWavHeader_run _ _ _ _ _ Hs).
  cbn [returned_bytes set_heap heap]. apply lookup_insert_eq.
Qed.

Lemma length_wav_header len sampleRate numChannels :
  length (wav_header len sampleRate numChannels) = 44%nat.
Proof. reflexivity. Qed.

Lemma le_combine_split_2 v : le_combine (le_split 2 v) = v mod 2 ^ 16.
Proof. apply (le_combine_split 2). Qed.

Lemma le_combine_split_4 v : le_combine (le_split 4 v) = v mod 2 ^ 32.
Proof. apply (le_combine_split 4). Qed.

(** Reading an integer field back from the header's explicit bytes. *)
Ltac read_field :=
  unfold uint32_le_at, uint16_le_at, uint_le_at, wav_header;
  unfold le_split, ascii_bytes;
  cbn [fmap list_fmap list_ascii_of_string app length Nat.add];
  rewrite decide_True by lia;
  cbn [firstn skipn]; f_equal;
  first [ apply le_combine_split_4 | apply le_combine_split_2 ].

(** Every integer field of the header holds the value the source passes
    to its setter, reduced modulo the field's width. *)
Lemma wav_header_fields len sampleRate numChannels s :
  let out := wav_header len sampleRate numChannels ++ s in
  uint32_le_at 4 out = Some ((36 + Z.of_nat len) mod 2 ^ 32) ∧
  uint32_le_at 16 out = Some (16 mod 2 ^ 32) ∧
  uint16_le_at 20 out = Some (1 mod 2 ^ 16) ∧
  uint16_le_at 22 out = Some (numChannels mod 2 ^ 16) ∧
  uint32_le_at 24 out = Some (sampleRate mod 2 ^ 32) ∧
  uint32_le_at 28 out = Some ((sampleRate * numChannels * 2) mod 2 ^ 32) ∧
  uint16_le_at 32 out = Some ((numChannels * 2) mod 2 ^ 16) ∧
  uint16_le_at 34 out = Some (16 mod 2 ^ 16) ∧
  uint32_le_at 40 out = Some (Z.of_nat len mod 2 ^ 32).
Proof.
  cbv zeta. repeat split; read_field.
Qed.

Lemma wav_header_tags len sampleRate numChannels s :
  let out := wav_header len sampleRate numChannels ++ s in
  slice 0 4 out = ascii_bytes "RIFF" ∧
  slice 8 12 out = ascii_bytes "WAVE" ∧
  slice 12 16 out = ascii_bytes "fmt " ∧
  slice 36 40 out = ascii_bytes "data".
Proof. cbv zeta. repeat split; reflexivity. Qed.

Lemma wav_payload len sampleRate numChannels s :
  slice 44 (44 + length s) (wav_header len sampleRate numChannels ++ s) = s.
Proof.
  unfold slice.
  rewrite drop_app_length' by reflexivity.
  replace (44 + length s - 44)%nat with (length s) by lia.
  apply firstn_all.
Qed.

Example ascii_bytes_tags :
  ascii_bytes "RIFF" = [Byte.x52; Byte.x49; Byte.x46; Byte.x46] ∧
  ascii_bytes "WAVE" = [Byte.x57; Byte.x41; Byte.x56; Byte.x45] ∧
  ascii_bytes "fmt " = [Byte.x66; Byte.x6d; Byte.x74; Byte.x20] ∧
  ascii_bytes "data" = [Byte.x64; Byte.x61; Byte.x74; Byte.x61].
Proof. repeat split; reflexivity. Qed.

(** ** The WAV builder *)

(** C1. For every sample buffer and all numeric arguments (in particular
    every sampleRate > 0 and numChannels > 0), the buffer [addWavHeader]
    returns has byte length exactly 44 + samples.length. *)
Theorem addWavHeader_length samples sampleRate numChannels w s :
  heap w !! samples = Some s →
  ∃ out, returned_bytes (addWavHeader samples sampleRate numChannels w) = Some out
         ∧ length out = (44 + length s)%nat.
Proof.
  intros Hs. eexists. split; [ by apply addWavHeader_returns | ].
  by rewrite length_app, length_wav_header.
Qed.

Lemma addWavHeader_length_witness :
  ∃ out, returned_bytes (addWavHeader 1%positive 24000 1 w0) = Some out
         ∧ length out = 48%nat.
Proof.
  apply (addWavHeader_length 1%positive 24000 1 w0
           [Byte.x01; Byte.x00; Byte.x02; Byte.x00]).
  reflexivity.
Defined.

(** C2, as the code has it. For every sample buffer with
    36 + samples.length < 2^32, the 32-bit little-endian integer at offset 4
    (ChunkSize) equals 36 + samples.length and the one at offset 40
    (Subchunk2Size) equals samples.length; these are the numbers of bytes
    that follow offset 8 and offset 44. *)
Theorem addWavHeader_sizes samples sampleRate numChannels w s :
  heap w !! samples = Some s →
  36 + Z.of_nat (length s) < 2 ^ 32 →
  ∃ out, returned_bytes (addWavHeader samples sampleRate numChannels w) = Some out
         ∧ uint32_le_at 4 out = Some (36 + Z.of_nat (length s))
         ∧ uint32_le_at 40 out = Some (Z.of_nat (length s))
         ∧ uint32_le_at 4 out = Some (Z.of_nat (length (drop 8 out)))
         ∧ uint32_le_at 40 out = Some (Z.of_nat (length (drop 44 out))).
Proof.
  intros Hs Hlt. eexists. split; [ by apply addWavHeader_returns | ].
  destruct (wav_header_fields (length s) sampleRate numChannels s)
    as (H4 & _ & _ & _ & _ & _ & _ & _ & H40).
  rewrite Z.mod_small in H4, H40 by lia.
  rewrite !length_drop, length_app, length_wav_header.
  repeat split; rewrite ?H4, ?H40; f_equal; lia.
Qed.

Lemma addWavHeader_sizes_witness :
  ∃ out, returned_bytes (addWavHeader 1%positive 24000 1 w0) = Some out
         ∧ uint32_le_at 4 out = Some 40
         ∧ uint32_le_at 40 out = Some 4
         ∧ uint32_le_at 4 out = Some (Z.of_nat (length (drop 8 out)))
         ∧ uint32_le_at 40 out = Some (Z.of_nat (length (drop 44 out))).
Proof.
  apply (addWavHeader_sizes 1%positive 24000 1 w0
           [Byte.x01; Byte.x00; Byte.x02; Byte.x00]).
  - reflexivity.
  - reflexivity.
Defined.

(** C2 fails as stated: for a sample buffer of 2^32 - 36 bytes the value
    36 + samples.length is 2^32, and [setUint32] stores it as 0. *)
Lemma addWavHeader_chunk_size_wraps :
  ∃ out, returned_bytes (addWavHeader 1%positive 24000 1 w_huge) = Some out
         ∧ uint32_le_at 4 out = Some 0
         ∧ 36 + Z.of_nat (length huge_samples) = 4294967296.
Proof.
  assert (Hlen : Z.of_nat (length huge_samples) = 4294967260).
  { unfold huge_samples. rewrite length_replicate. apply N_nat_Z. }
  eexists. split; [ | split ].
  - apply addWavHeader_returns. apply lookup_singleton_eq.
  - destruct (wav_header_fields (length huge_samples) 24000 1 huge_samples)
      as (H4 & _).
    rewrite H4, Hlen. reflexivity.
  - rewrite Hlen. reflexivity.
Qed.

(** C3. For every input, bytes [0..4) of the output are "RIFF", bytes
    [8..12) are "WAVE", bytes [12..16) are "fmt " (with trailing space) and
    bytes [36..40) are "data". *)
Theorem addWavHeader_tags samples sampleRate numChannels w s :
  heap w !! samples = Some s →
  ∃ out, returned_bytes (addWavHeader samples sampleRate numChannels w) = Some out
         ∧ slice 0 4 out = ascii_bytes "RIFF"
         ∧ slice 8 12 out = ascii_bytes "WAVE"
         ∧ slice 12 16 out = ascii_bytes "fmt "
         ∧ slice 36 40 out = ascii_bytes "data".
Proof.
  intros Hs. eexists. split; [ by apply addWavHeader_returns | ].
  apply wav_header_tags.
Qed.

Lemma addWavHeader_tags_witness :
  ∃ out, returned_bytes (addWavHeader 1%positive 24000 1 w0) = Some out
         ∧ slice 0 4 out = [Byte.x52; Byte.x49; Byte.x46; Byte.x46]
         ∧ slice 8 12 out = [Byte.x57; Byte.x41; Byte.x56; Byte.x45]
         ∧ slice 12 16 out = [Byte.x66; Byte.x6d; Byte.x74; Byte.x20]
         ∧ slice 36 40 out = [Byte.x64; Byte.x61; Byte.x74; Byte.x61].
Proof.
  apply (addWavHeader_tags 1%positive 24000 1 w0
           [Byte.x01; Byte.x00; Byte.x02; Byte.x00]).
  reflexivity.
Defined.

(** C4, as the code has it. For every sampleRate > 0 and numChannels > 0
    with numChannels * 2 < 2^16 and sampleRate * numChannels * 2 < 2^32, the
    output has the 32-bit field 16 at offset 16, the 16-bit field 1 at
    offset 20, numChannels at offset 22 (16 bits), sampleRate at offset 24
    (32 bits), sampleRate * numChannels * 2 at offset 28 (32 bits),
    numChannels * 2 at offset 32 (16 bits) and 16 at offset 34 (16 bits),
    all little-endian. *)
Theorem addWavHeader_format samples sampleRate numChannels w s :
  heap w !! samples = Some s →
  0 < sampleRate → 0 < numChannels →
  numChannels * 2 < 2 ^ 16 →
  sampleRate * numChannels * 2 < 2 ^ 32 →
  ∃ out, returned_bytes (addWavHeader samples sampleRate numChannels w) = Some out
         ∧ uint32_le_at 16 out = Some 16
         ∧ uint16_le_at 20 out = Some 1
         ∧ uint16_le_at 22 out = Some numChannels
         ∧ uint32_le_at 24 out = Some sampleRate
         ∧ uint32_le_at 28 out = Some (sampleRate * numChannels * 2)
         ∧ uint16_le_at 32 out = Some (numChannels * 2)
         ∧ uint16_le_at 34 out = Some 16.
Proof.
  intros Hs Hsr Hnc Hnc2 Hrate. eexists. split; [ by apply addWavHeader_returns | ].
  destruct (wav_header_fields (length s) sampleRate numChannels s)
    as (_ & H16 & H20 & H22 & H24 & H28 & H32 & H34 & _).
  rewrite Z.mod_small in H22 by lia.
  rewrite Z.mod_small in H24 by nia.
  rewrite Z.mod_small in H28 by nia.
  rewrite Z.mod_small in H32 by lia.
  by repeat split.
Qed.

Lemma addWavHeader_format_witness :
  ∃ out, returned_bytes (addWavHeader 1%positive 24000 1 w0) = Some out
         ∧ uint32_le_at 16 out = Some 16
         ∧ uint16_le_at 20 out = Some 1
         ∧ uint16_le_at 22 out = Some 1
         ∧ uint32_le_at 24 out = Some 24000
         ∧ uint32_le_at 28 out = Some 48000
         ∧ uint16_le_at 32 out = Some 2
         ∧ uint16_le_at 34 out = Some 16.
Proof.
  apply (addWavHeader_format 1%positive 24000 1 w0
           [Byte.x01; Byte.x00; Byte.x02; Byte.x00]); reflexivity.
Defined.

(** C4 fails as stated: with numChannels = 65536 (and sampleRate = 8000)
    the 16-bit fields at offsets 22 and 32 hold 0, and the 32-bit ByteRate
    1048576000 is stored intact. *)
Lemma addWavHeader_channels_wrap :
  ∃ out, returned_bytes (addWavHeader 1%positive 8000 65536 w0) = Some out
         ∧ uint16_le_at 22 out = Some 0
         ∧ uint16_le_at 32 out = Some 0
         ∧ uint32_le_at 28 out = Some 1048576000.
Proof. eexists. split; [ vm_compute; reflexivity | ]. repeat split. Qed.

(** C5. For every sample buffer, bytes [44, 44 + samples.length) of the
    output equal the input samples byte for byte, and the input buffer
    holds the same bytes after the call as before. *)
Theorem addWavHeader_payload samples sampleRate numChannels w s :
  heap w !! samples = Some s →
  ∃ out w',
    addWavHeader samples sampleRate numChannels w = (Normal out, w')
    ∧ (∃ bytes, heap w' !! out = Some bytes
                ∧ slice 44 (44 + length s) bytes = s)
    ∧ out ≠ samples
    ∧ heap w' !! samples = Some s.
Proof.
  intros Hs.
  assert (Hne : fresh (dom (heap w)) ≠ samples) by (apply fresh_loc_ne; eauto).
  do 2 eexists. split; [ by apply addWavHeader_run | ].
  cbn [set_heap heap]. split; [ | split ].
  - eexists. split; [ apply lookup_insert_eq | apply wav_payload ].
  - done.
  - by rewrite lookup_insert_ne.
Qed.

Lemma addWavHeader_payload_witness :
  ∃ out w',
    addWavHeader 1%positive 24000 1 w0 = (Normal out, w')
    ∧ (∃ bytes, heap w' !! out = Some bytes
                ∧ slice 44 48 bytes = [Byte.x01; Byte.x00; Byte.x02; Byte.x00])
    ∧ out ≠ 1%positive
    ∧ heap w' !! 1%positive = Some [Byte.x01; Byte.x00; Byte.x02; Byte.x00].
Proof.
  apply (addWavHeader_payload 1%positive 24000 1 w0
           [Byte.x01; Byte.x00; Byte.x02; Byte.x00]).
  reflexivity.
Defined.

(** C6. [addWavHeader] is pure and deterministic: two calls with equal
    numeric arguments on sample buffers holding the same bytes (possibly
    distinct objects, in possibly different worlds) return buffers with
    identical bytes; the call performs no interaction, leaves the state
    cell alone and changes no object that existed before: its only effect
    is the newly allocated result. *)
Theorem addWavHeader_pure samples1 samples2 sampleRate numChannels w1 w2 s :
  heap w1 !! samples1 = Some s →
  heap w2 !! samples2 = Some s →
  ∃ out1 w1' out2 w2' bytes,
    addWavHeader samples1 sampleRate numChannels w1 = (Normal out1, w1')
    ∧ addWavHeader samples2 sampleRate numChannels w2 = (Normal out2, w2')
    ∧ heap w1' !! out1 = Some bytes
    ∧ heap w2' !! out2 = Some bytes
    ∧ trace w1' = trace w1
    ∧ audioOverview w1' = audioOverview w1
    ∧ heap w1 !! out1 = None
    ∧ (∀ l, l ≠ out1 → heap w1' !! l = heap w1 !! l).
Proof.
  intros Hs1 Hs2.
  exists (fresh (dom (heap w1))), (set_heap (<[fresh (dom (heap w1)) := wav_header (length s) sampleRate numChannels ++ s]>) w1).
  exists (fresh (dom (heap w2))), (set_heap (<[fresh (dom (heap w2)) := wav_header (length s) sampleRate numChannels ++ s]>) w2).
  exists (wav_header (length s) sampleRate numChannels ++ s).
  split; [ by apply addWavHeader_run | ].
  split; [ by apply addWavHeader_run | ].
  cbn [set_heap heap trace audioOverview].
  split; [ apply lookup_insert_eq | ].
  split; [ apply lookup_insert_eq | ].
  split; [ done | ]. split; [ done | ].
  split.
  - apply not_elem_of_dom, is_fresh.
  - intros l Hl. by rewrite lookup_insert_ne.
Qed.

Lemma addWavHeader_pure_witness :
  ∃ out1 w1' out2 w2' bytes,
    addWavHeader 1%positive 24000 1 w0 = (Normal out1, w1')
    ∧ addWavHeader 7%positive 24000 1 w1 = (Normal out2, w2')
    ∧ heap w1' !! out1 = Some bytes
    ∧ heap w2' !! out2 = Some bytes
    ∧ trace w1' = trace w0
    ∧ audioOverview w1' = audioOverview w0
    ∧ heap w0 !! out1 = None
    ∧ (∀ l, l ≠ out1 → heap w1' !! l = heap w0 !! l).
Proof.
  apply (addWavHeader_pure 1%positive 7%positive 24000 1 w0 w1
           [Byte.x01; Byte.x00; Byte.x02; Byte.x00]).
  - reflexivity.
  - reflexivity.
Defined.

(** C7. [addWavHeader] has no error outcome: on every sample buffer,
    empty or not, and for all numeric arguments, positive or not, it
    returns normally.  For empty samples it returns a 44-byte buffer whose
    32-bit little-endian field at offset 4 is 36 and whose field at offset
    40 is 0. *)
Theorem addWavHeader_total samples sampleRate numChannels w s :
  heap w !! samples = Some s →
  (∃ out w', addWavHeader samples sampleRate numChannels w = (Normal out, w'))
  ∧ (s = [] →
     ∃ bytes,
       returned_bytes (addWavHeader samples sampleRate numChannels w) = Some bytes
       ∧ length bytes = 44%nat
       ∧ uint32_le_at 4 bytes = Some 36
       ∧ uint32_le_at 40 bytes = Some 0).
Proof.
  intros Hs. split.
  - do 2 eexists. by apply addWavHeader_run.
  - intros ->. eexists. split; [ by apply addWavHeader_returns | ].
    repeat split.
Qed.

Lemma addWavHeader_total_witness :
  (∃ out w', addWavHeader 1%positive 0 (-1) w_empty = (Normal out, w'))
  ∧ (∃ bytes,
       returned_bytes (addWavHeader 1%positive 0 (-1) w_empty) = Some bytes
       ∧ length bytes = 44%nat
       ∧ uint32_le_at 4 bytes = Some 36
       ∧ uint32_le_at 40 bytes = Some 0).
Proof.
  destruct (addWavHeader_total 1%positive 0 (-1) w_empty [] eq_refl)
    as [Hruns Hempty].
  split; [ exact Hruns | exact (Hempty eq_refl) ].
Defined.

(** The empty-buffer scenario of the specification. *)
Example addWavHeader_empty_scenario :
  ∃ bytes,
    returned_bytes (addWavHeader 1%positive 16000 2 w_empty) = Some bytes
    ∧ length bytes = 44%nat
    ∧ uint32_le_at 4 bytes = Some 36
    ∧ uint32_le_at 40 bytes = Some 0.
Proof. eexists. split; [ vm_compute; reflexivity | ]. repeat split. Qed.

(** ** The audio-overview hook *)

Section GenerateAudio.
Variable env : Collaborators.
Variable sources : list Source.
Variable language : option string.
Variable w : world.

Local Abbreviation lang := (default "English"%string language).

Ltac step_hook :=
  cbv beta iota zeta delta
    [mbind M_bind mret M_ret try_catch setAudioOverview
     generatePodcastScript synthesizePodcastAudio emit await throw log
     console_error new_buffer_of createObjectURL_Blob set_heap
     heap audioOverview trace].

Ltac tidy_trace := rewrite <- ?app_assoc; cbn [app].

Lemma generateAudio_script_rejected e :
  sources ≠ [] →
  script_reply env sources lang = Failed e →
  generateAudio env sources language w
  = (Normal tt,
     {| heap := heap w; audioOverview := st_error;
        trace := trace w ++
          [SetAudioOverview st_generating;
           Call_generatePodcastScript sources lang;
           Return_generatePodcastScript (Failed e);
           ConsoleError e;
           SetAudioOverview st_error] |}).
Proof.
  intros Hne Hscript. unfold generateAudio. fold lang.
  rewrite decide_False by (by destruct sources).
  step_hook. rewrite Hscript. step_hook. tidy_trace. reflexivity.
Qed.

Lemma generateAudio_synthesis_rejected script e :
  sources ≠ [] →
  script_reply env sources lang = Resolved script →
  audio_reply env script = Failed e →
  generateAudio env sources language w
  = (Normal tt,
     {| heap := heap w; audioOverview := st_error;
        trace := trace w ++
          [SetAudioOverview st_generating;
           Call_generatePodcastScript sources lang;
           Return_generatePodcastScript (Resolved script);
           SetAudioOverview (st_synthesizing script);
           Call_synthesizePodcastAudio script;
           Return_synthesizePodcastAudio (Failed e);
           ConsoleError e;
           SetAudioOverview st_error] |}).
Proof.
  intros Hne Hscript Haudio. unfold generateAudio. fold lang.
  rewrite decide_False by (by destruct sources).
  step_hook. rewrite Hscript. step_hook. rewrite Haudio. step_hook.
  tidy_trace. reflexivity.
Qed.

Lemma generateAudio_resolved script pcm :
  sources ≠ [] →
  script_reply env sources lang = Resolved script →
  audio_reply env script = Resolved pcm →
  let wav := wav_header (length pcm) 24000 1 ++ pcm in
  let url := object_url env wav "audio/wav" in
  let audioBuffer := fresh (dom (heap w)) in
  let wavBuffer := fresh (dom (<[audioBuffer := pcm]> (heap w))) in
  generateAudio env sources language w
  = (Normal tt,
     {| heap := <[wavBuffer := wav]> (<[audioBuffer := pcm]> (heap w));
        audioOverview := st_ready url script;
        trace := trace w ++
          [SetAudioOverview st_generating;
           Call_generatePodcastScript sources lang;
           Return_generatePodcastScript (Resolved script);
           SetAudioOverview (st_synthesizing script);
           Call_synthesizePodcastAudio script;
           Return_synthesizePodcastAudio (Resolved pcm);
           CreateObjectURL wav "audio/wav" url;
           SetAudioOverview (st_ready url script)] |}).
Proof.
  intros Hne Hscript Haudio. cbv zeta. unfold generateAudio. fold lang.
  rewrite decide_False by (by destruct sources).
  step_hook. rewrite Hscript. step_hook. rewrite Haudio. step_hook.
  erewrite addWavHeader_run by (cbn [heap]; apply lookup_insert_eq).
  step_hook. rewrite lookup_insert_eq. step_hook.
  tidy_trace. reflexivity.
Qed.

End GenerateAudio.

(** Every run of [generateAudio] returns normally and appends one of
    four event sequences to the trace. *)
Lemma generateAudio_cases env sources language w :
  let lang := default "English"%string language in
  ∃ evs w',
    generateAudio env sources language w = (Normal tt, w')
    ∧ trace w' = trace w ++ evs
    ∧ ((sources = [] ∧ evs = [] ∧ w' = w)
       ∨ (∃ e,
            script_reply env sources lang = Failed e
            ∧ audioOverview w' = st_error
            ∧ evs = [SetAudioOverview st_generating;
                     Call_generatePodcastScript sources lang;
                     Return_generatePodcastScript (Failed e);
                     ConsoleError e;
                     SetAudioOverview st_error])
       ∨ (∃ script e,
            script_reply env sources lang = Resolved script
            ∧ audio_reply env script = Failed e
            ∧ audioOverview w' = st_error
            ∧ evs = [SetAudioOverview st_generating;
                     Call_generatePodcastScript sources lang;
                     Return_generatePodcastScript (Resolved script);
                     SetAudioOverview (st_synthesizing script);
                     Call_synthesizePodcastAudio script;
                     Return_synthesizePodcastAudio (Failed e);
                     ConsoleError e;
                     SetAudioOverview st_error])
       ∨ (∃ script pcm url,
            script_reply env sources lang = Resolved script
            ∧ audio_reply env script = Resolved pcm
            ∧ audioOverview w' = st_ready url script
            ∧ evs = [SetAudioOverview st_generating;
                     Call_generatePodcastScript sources lang;
                     Return_generatePodcastScript (Resolved script);
                     SetAudioOverview (st_synthesizing script);
                     Call_synthesizePodcastAudio script;
                     Return_synthesizePodcastAudio (Resolved pcm);
                     CreateObjectURL (wav_header (length pcm) 24000 1 ++ pcm)
                       "audio/wav" url;
                     SetAudioOverview (st_ready url script)])).
Proof.
  intros lang.
  destruct (decide (sources = [])) as [-> | Hne].
  { exists [], w. rewrite app_nil_r. repeat split. by left. }
  destruct (script_reply env sources lang) as [script | e] eqn:Hscript.
  2: { do 2 eexists. split;
         [ by apply (generateAudio_script_rejected env sources language w e) | ].
       cbn [trace audioOverview]. split; [ done | ].
       right; left. by exists e. }
  destruct (audio_reply env script) as [pcm | e] eqn:Haudio.
  2: { do 2 eexists. split;
         [ by apply (generateAudio_synthesis_rejected env sources language w script e) | ].
       cbn [trace audioOverview]. split; [ done | ].
       right; right; left. by exists script, e. }
  do 2 eexists. split;
    [ by apply (generateAudio_resolved env sources language w script pcm) | ].
  cbn [trace audioOverview]. split; [ done | ].
  right; right; right. by eexists script, pcm, _.
Qed.

Ltac index_cases i Hi :=
  repeat (destruct i as [|i]; cbn [lookup list_lookup] in Hi;
          try discriminate Hi).

(** C8. In [generateAudio], speech synthesis is requested only after the
    script request has returned, and with the script it returned; the
    state cell is set to 'generating_script', then 'synthesizing', then
    'ready', in this order; when a request fails the run ends with the
    state 'error'; and neither request is issued more than once. *)
Theorem generateAudio_sequencing env sources language w :
  ∃ evs w',
    generateAudio env sources language w = (Normal tt, w')
    ∧ trace w' = trace w ++ evs
    ∧ (∀ i script,
         evs !! i = Some (Call_synthesizePodcastAudio script) →
         ∃ j, (j < i)%nat
              ∧ evs !! j = Some (Return_generatePodcastScript (Resolved script)))
    ∧ ((sources = [] ∧ statuses evs = [])
       ∨ statuses evs = [generating_script; error]
       ∨ statuses evs = [generating_script; synthesizing; error]
       ∨ statuses evs = [generating_script; synthesizing; ready])
    ∧ (sources ≠ [] → count_events is_failure evs = 0%nat →
       statuses evs = [generating_script; synthesizing; ready]
       ∧ status (audioOverview w') = ready)
    ∧ (count_events is_failure evs ≠ 0%nat →
       status (audioOverview w') = error
       ∧ last (statuses evs) = Some error)
    ∧ (count_events is_script_call evs ≤ 1)%nat
    ∧ (count_events is_synth_call evs ≤ 1)%nat.
Proof.
  destruct (generateAudio_cases env sources language w)
    as (evs & w' & Hrun & Htrace & Hcases).
  exists evs, w'. split; [ done | ]. split; [ done | ].
  destruct Hcases as [(-> & -> & ->) | [(e & _ & Hst & ->)
    | [(script & e & _ & _ & Hst & ->) | (script & pcm & url & _ & _ & Hst & ->)]]].
  - split; [ intros i script Hi; by destruct i | ].
    split; [ by left | ].
    split; [ done | ]. split; [ done | ]. split; vm_compute; lia.
  - split; [ intros i script Hi; index_cases i Hi | ].
    split; [ right; by left | ].
    split; [ intros _ Hcount; discriminate Hcount | ].
    split; [ intros _; by rewrite Hst | ]. split; vm_compute; lia.
  - split.
    { intros i script' Hi. index_cases i Hi.
      injection Hi as <-. exists 2%nat. split; [ lia | done ]. }
    split; [ right; right; by left | ].
    split; [ intros _ Hcount; discriminate Hcount | ].
    split; [ intros _; by rewrite Hst | ]. split; vm_compute; lia.
  - split.
    { intros i script' Hi. index_cases i Hi.
      injection Hi as <-. exists 2%nat. split; [ lia | done ]. }
    split; [ right; right; by right | ].
    split; [ intros _ _; by rewrite Hst | ].
    split; [ intros Hcount; by destruct Hcount | ]. split; vm_compute; lia.
Qed.

(** C9. With an empty sources list [generateAudio] returns at once: the
    world after the call is the world before it, so no request was made
    and the audio-overview state, whatever it was, is unchanged. *)
Theorem generateAudio_no_sources env language w :
  generateAudio env [] language w = (Normal tt, w).
Proof. reflexivity. Qed.

Ltac no_such_event Hin :=
  rewrite !elem_of_cons, elem_of_nil in Hin;
  repeat (destruct Hin as [Hin | Hin]; [ discriminate Hin | ]);
  first [ discriminate Hin | exact Hin ].

(** C10. Every WAV buffer [generateAudio] hands to the browser is what
    [addWavHeader] builds from the synthesized bytes with sampleRate 24000
    and numChannels 1: whatever bytes the speech synthesis returned, the
    header declares 1 channel, 24000 Hz, ByteRate 48000 and BlockAlign 2. *)
Theorem generateAudio_wav_parameters env sources language w :
  ∃ evs w',
    generateAudio env sources language w = (Normal tt, w')
    ∧ trace w' = trace w ++ evs
    ∧ (∀ blob type url,
         CreateObjectURL blob type url ∈ evs →
         ∃ script pcm,
           audio_reply env script = Resolved pcm
           ∧ (∀ wx samples, heap wx !! samples = Some pcm →
                returned_bytes (addWavHeader samples 24000 1 wx) = Some blob)
           ∧ uint16_le_at 22 blob = Some 1
           ∧ uint32_le_at 24 blob = Some 24000
           ∧ uint32_le_at 28 blob = Some 48000
           ∧ uint16_le_at 32 blob = Some 2)
    ∧ (sources ≠ [] → count_events is_failure evs = 0%nat →
       ∃ blob url, CreateObjectURL blob "audio/wav" url ∈ evs).
Proof.
  destruct (generateAudio_cases env sources language w)
    as (evs & w' & Hrun & Htrace & Hcases).
  exists evs, w'. split; [ done | ]. split; [ done | ].
  destruct Hcases as [(-> & -> & ->) | [(e & _ & Hst & ->)
    | [(script & e & _ & _ & Hst & ->) | (script & pcm & url & _ & Haudio & Hst & ->)]]].
  - split; [ | done ]. intros blob type url Hin. by apply elem_of_nil in Hin.
  - split; [ | intros _ Hcount; discriminate Hcount ].
    intros blob type url Hin. exfalso. no_such_event Hin.
  - split; [ | intros _ Hcount; discriminate Hcount ].
    intros blob type url Hin. exfalso. no_such_event Hin.
  - split.
    + intros blob type url' Hin.
      assert (blob = wav_header (length pcm) 24000 1 ++ pcm) as ->.
      { rewrite !elem_of_cons, elem_of_nil in Hin.
        destruct Hin as [Hin|[Hin|[Hin|[Hin|[Hin|[Hin|[Hin|[Hin|[]]]]]]]]];
          try discriminate Hin.
        by injection Hin. }
      exists script, pcm. split; [ done | ].
      split; [ intros wx samples Hs; by apply addWavHeader_returns | ].
      destruct (wav_header_fields (length pcm) 24000 1 pcm)
        as (_ & _ & _ & H22 & H24 & H28 & H32 & _).
      by repeat split.
    + intros _ _. exists (wav_header (length pcm) 24000 1 ++ pcm), url.
      rewrite !elem_of_cons. do 6 right. by left.
Qed.

(** Two concrete runs: a service that answers, and one whose speech
    synthesis is rejected. *)
Example generateAudio_run_ok :
  let w' := snd (generateAudio env_ok [source0] None w0) in
  statuses (trace w') = [generating_script; synthesizing; ready]
  ∧ audioOverview w' = st_ready "blob:1" "Alex: Hi"
  ∧ count_events is_failure (trace w') = 0%nat.
Proof. vm_compute. done. Qed.

Example generateAudio_run_rejected :
  let w' := snd (generateAudio env_no_audio [source0] None w0) in
  statuses (trace w') = [generating_script; synthesizing; error]
  ∧ audioOverview w' = st_error
  ∧ count_events is_synth_call (trace w') = 1%nat.
Proof. vm_compute. done. Qed.

(** * The service layer and the handlers of the application *)

(** ** Running handlers *)

Ltac ui_run :=
  cbv beta iota zeta delta
    [mbind UI_bind mret UI_ret ui_get ui_update ui_await ui_try_catch_finally
     ui_randomUUID ui_Date_now ui_generateContent ui_console_error
     set_sources set_notes set_history set_isGeneratingChat
     set_hasFetchedQuestions set_notifications set_isStudioGenerating
     set_timers set_requests set_console set_uuids_drawn set_clock_reads
     sources notes history isGeneratingChat hasFetchedQuestions notifications
     isStudioGenerating timers requests console uuids_drawn clock_reads
     fst snd addNotification setTimeout_expiry notification_expires].

Lemma sendMessage_run env message st :
  let userMsg :=
    {| ChatMessage.id := randomUUID env (uuids_drawn st);
       ChatMessage.role := Role.user; ChatMessage.text := message;
       ChatMessage.timestamp := Date_now env (clock_reads st);
       ChatMessage.isThinking := None |} in
  let reply (text : string) :=
    {| ChatMessage.id := randomUUID env (S (uuids_drawn st));
       ChatMessage.role := Role.model; ChatMessage.text := text;
       ChatMessage.timestamp := Date_now env (S (clock_reads st));
       ChatMessage.isThinking := None |} in
  let request := chat_request (sources st) (history st) message in
  sendMessage env message st
  = (Normal tt,
     match generateContent env (length (requests st)) request with
     | Resolved response =>
         {| sources := sources st; notes := notes st;
            history := history st ++ [userMsg;
              reply (or_else (Response.text response)
                       "I couldn't generate a response based on these sources.")];
            isGeneratingChat := false;
            hasFetchedQuestions := hasFetchedQuestions st;
            notifications := notifications st;
            isStudioGenerating := isStudioGenerating st;
            timers := timers st;
            requests := requests st ++ [request];
            console := console st;
            uuids_drawn := S (S (uuids_drawn st));
            clock_reads := S (S (clock_reads st)) |}
     | Failed e =>
         {| sources := sources st; notes := notes st;
            history := history st ++ [userMsg;
              reply "I encountered an error connecting to the Nexus core. Please check your connection or API Key."];
            isGeneratingChat := false;
            hasFetchedQuestions := hasFetchedQuestions st;
            notifications := notifications st;
            isStudioGenerating := isStudioGenerating st;
            timers := timers st;
            requests := requests st ++ [request];
            console := console st ++ [e];
            uuids_drawn := S (S (uuids_drawn st));
            clock_reads := S (S (clock_reads st)) |}
     end).
Proof.
  cbv zeta. destruct st. unfold sendMessage, generateChatResponse, chat_request.
  ui_run.
  destruct (generateContent env _ _) as [response | e]; ui_run;
    rewrite <- app_assoc; reflexivity.
Qed.

Lemma handleAddSource_run env name content mimeType data st :
  handleAddSource env name content mimeType data st
  = (Normal tt,
     {| sources := sources st ++
          [ {| id := randomUUID env (uuids_drawn st); name := name;
               content := content; mimeType := mimeType; data := data;
               type := if String.eqb mimeType "text/plain" then text else file;
               dateAdded := Date_now env (clock_reads st) |} ];
        notes := notes st; history := history st;
        isGeneratingChat := isGeneratingChat st;
        hasFetchedQuestions := false;
        notifications := ("Added source: " ++ name)%string :: notifications st;
        isStudioGenerating := isStudioGenerating st;
        timers := S (timers st);
        requests := requests st; console := console st;
        uuids_drawn := S (uuids_drawn st);
        clock_reads := S (clock_reads st) |}).
Proof. destruct st. reflexivity. Qed.

Lemma handleGenerateStudio_no_sources env task st :
  sources st = [] →
  handleGenerateStudio env task st
  = (Normal tt,
     set_timers S (set_notifications (cons "Add sources first!"%string) st)).
Proof. destruct st. cbn [sources]. intros ->. reflexivity. Qed.

Lemma handleGenerateStudio_resolved env task st response :
  sources st ≠ [] →
  generateContent env (length (requests st)) (studio_request (sources st) task) = Resolved response →
  let title := (studio_task task).1.2 in
  let isJson := (studio_task task).2 in
  handleGenerateStudio env task st
  = (Normal tt,
     {| sources := sources st;
        notes :=
          {| Note.id := randomUUID env (uuids_drawn st);
             Note.title := title;
             Note.content := or_else (Response.text response)
                               (if isJson then "[]" else "Failed to generate content.");
             Note.type := if bool_decide (task = quiz ∨ task = flashcards)
                          then studio_output else saved_response;
             Note.tags := Some [task];
             Note.dateCreated := Date_now env (clock_reads st) |} :: notes st;
        history := history st;
        isGeneratingChat := isGeneratingChat st;
        hasFetchedQuestions := hasFetchedQuestions st;
        notifications :=
          (title ++ " created!")%string
          :: ("Generating " ++ replace_first "_" " " (task_string task) ++ "...")%string
          :: notifications st;
        isStudioGenerating := false;
        timers := S (S (timers st));
        requests := requests st ++ [studio_request (sources st) task];
        console := console st;
        uuids_drawn := S (uuids_drawn st);
        clock_reads := S (clock_reads st) |}).
Proof.
  destruct st. cbn [sources uuids_drawn clock_reads requests]. intros Hne Hreply. cbv zeta.
  unfold handleGenerateStudio, generateStudioContent, saveNote.
  unfold studio_request in *.
  destruct (studio_task task) as [[prompt title] isJson].
  cbn [fst snd] in *. ui_run.
  rewrite decide_False by (by destruct sources0). ui_run.
  rewrite Hreply. ui_run. reflexivity.
Qed.

Lemma handleGenerateStudio_rejected env task st e :
  sources st ≠ [] →
  generateContent env (length (requests st)) (studio_request (sources st) task) = Failed e →
  handleGenerateStudio env task st
  = (Normal tt,
     {| sources := sources st; notes := notes st; history := history st;
        isGeneratingChat := isGeneratingChat st;
        hasFetchedQuestions := hasFetchedQuestions st;
        notifications :=
          "Failed to generate content."%string
          :: ("Generating " ++ replace_first "_" " " (task_string task) ++ "...")%string
          :: notifications st;
        isStudioGenerating := false;
        timers := S (S (timers st));
        requests := requests st ++ [studio_request (sources st) task];
        console := console st ++ [e];
        uuids_drawn := uuids_drawn st;
        clock_reads := clock_reads st |}).
Proof.
  destruct st. cbn [sources requests]. intros Hne Hreply.
  unfold handleGenerateStudio, generateStudioContent, saveNote.
  unfold studio_request in *.
  destruct (studio_task task) as [[prompt title] isJson].
  cbn [fst snd] in *. ui_run.
  rewrite decide_False by (by destruct sources0). ui_run.
  rewrite Hreply. ui_run. reflexivity.
Qed.

(** ** What is sent to the service *)

(** X1. The part [getSourceParts] makes of a source is inline data exactly
    when the source is a PDF with non-empty [data], and then carries that
    data under the PDF media type; every other source, including a PDF
    whose [data] is missing or empty, becomes the text part that frames
    its name and content. *)
Theorem getSourceParts_part (sources : list Source) i s :
  sources !! i = Some s →
  match getSourceParts sources !! i with
  | Some (InlineDataPart m d) =>
      m = "application/pdf"%string
      ∧ mimeType s = "application/pdf"%string
      ∧ data s = Some d ∧ d ≠ ""%string
  | Some (TextPart t) =>
      t = ("--- SOURCE: " ++ name s ++ " ---" ++ nl ++ content s ++ nl
           ++ "--- END SOURCE ---")%string
      ∧ (mimeType s ≠ "application/pdf"%string
         ∨ data s = None ∨ data s = Some ""%string)
  | None => False
  end.
Proof.
  intros Hs. unfold getSourceParts. rewrite list_lookup_fmap, Hs. cbn [fmap option_fmap option_map].
  destruct (String.eqb_spec (mimeType s) "application/pdf") as [Hm | Hm];
    cbn [andb]; [ | by auto ].
  destruct (data s) as [d|]; cbn [truthy default]; [ | by auto ].
  destruct (String.eqb_spec d "") as [-> | Hd]; cbn [negb]; by auto.
Qed.

Lemma getSourceParts_part_witness :
  match getSourceParts [source0; pdf_source; pdf_without_data] !! 2%nat with
  | Some (InlineDataPart m d) =>
      m = "application/pdf"%string
      ∧ mimeType pdf_without_data = "application/pdf"%string
      ∧ data pdf_without_data = Some d ∧ d ≠ ""%string
  | Some (TextPart t) =>
      t = ("--- SOURCE: " ++ name pdf_without_data ++ " ---" ++ nl
           ++ content pdf_without_data ++ nl ++ "--- END SOURCE ---")%string
      ∧ (mimeType pdf_without_data ≠ "application/pdf"%string
         ∨ data pdf_without_data = None ∨ data pdf_without_data = Some ""%string)
  | None => False
  end.
Proof.
  apply (getSourceParts_part [source0; pdf_source; pdf_without_data] 2 pdf_without_data).
  reflexivity.
Defined.

(** X2. The conversation [generateChatResponse] sends has 3 + history.length
    turns: a user turn that carries one instruction part and one part per
    source, a model acknowledgement, the history turn by turn with each
    role and text kept, and last a user turn holding the new message. *)
Theorem chat_contents_shape sources history newMessage :
  let contents := chat_contents sources history newMessage in
  length contents = (3 + length history)%nat
  ∧ (∃ priming, contents !! 0%nat = Some priming
                ∧ role priming = Some "user"%string
                ∧ length (parts priming) = (1 + length sources)%nat)
  ∧ contents !! 1%nat
    = Some {| role := Some "model"%string;
              parts := [TextPart "Understood. I have processed the sources."] |}
  ∧ (∀ i msg, history !! i = Some msg →
       contents !! (2 + i)%nat
       = Some {| role := Some (role_string (ChatMessage.role msg));
                 parts := [TextPart (ChatMessage.text msg)] |})
  ∧ last contents
    = Some {| role := Some "user"%string; parts := [TextPart newMessage] |}.
Proof.
  cbv zeta. unfold chat_contents. split; [ | split; [ | split; [ | split ] ] ].
  - cbn [app length]. rewrite length_app, length_fmap. cbn. lia.
  - eexists. split; [ reflexivity | ]. split; [ reflexivity | ].
    cbn [parts length]. unfold getSourceParts. by rewrite length_fmap.
  - reflexivity.
  - intros i msg Hi.
    rewrite (lookup_app_r [_; _]) by (cbn [length]; lia).
    cbn [length]. replace (2 + i - 2)%nat with i by lia.
    rewrite lookup_app_l by (rewrite length_fmap; by eapply lookup_lt_Some).
    rewrite list_lookup_fmap, Hi. cbn. by destruct (ChatMessage.role msg).
  - rewrite app_assoc. apply last_snoc.
Qed.

(** X3. When [generateChatResponse] resolves, its value is never the empty
    string: it is the response text, or the fixed apology when the text is
    missing or empty.  It fails exactly when the request fails, and in both
    cases exactly one request was sent. *)
Theorem generateChatResponse_reply env sources history newMessage st :
  let request := chat_request sources history newMessage in
  match generateChatResponse env sources history newMessage st with
  | (Normal reply, st') =>
      reply ≠ ""%string
      ∧ requests st' = requests st ++ [request]
      ∧ ∃ response,
          generateContent env (length (requests st)) request = Resolved response
          ∧ reply = or_else (Response.text response)
                      "I couldn't generate a response based on these sources."
  | (Throw e, st') =>
      generateContent env (length (requests st)) request = Failed e
      ∧ requests st' = requests st ++ [request]
  end.
Proof.
  cbv zeta. unfold generateChatResponse, chat_request. destruct st. ui_run.
  destruct (generateContent env _ _) as [response | e]; ui_run; [ | done ].
  split; [ | split; [ done | by exists response ] ].
  destruct response as [[t|]]; cbn [or_else Response.text]; [ | done ].
  by destruct (String.eqb_spec t "").
Qed.

(** ** Chat *)

(** X4. Whatever the service does, [sendMessage] returns normally and
    appends exactly two messages to the history: the user's message with
    the text given, then a model message with a non-empty text.  It sends
    one request, built from the sources and from the history as it was
    before the call (the new text is its last turn only), ends with
    [isGeneratingChat] false, and leaves sources, notes and notifications
    alone. *)
Theorem sendMessage_exchange env message st :
  ∃ userMsg reply st',
    sendMessage env message st = (Normal tt, st')
    ∧ history st' = history st ++ [userMsg; reply]
    ∧ ChatMessage.role userMsg = Role.user
    ∧ ChatMessage.text userMsg = message
    ∧ ChatMessage.role reply = Role.model
    ∧ ChatMessage.text reply ≠ ""%string
    ∧ isGeneratingChat st' = false
    ∧ requests st' = requests st ++ [chat_request (sources st) (history st) message]
    ∧ sources st' = sources st
    ∧ notes st' = notes st
    ∧ notifications st' = notifications st.
Proof.
  pose proof (sendMessage_run env message st) as Hrun. cbv zeta in Hrun.
  destruct (generateContent env _ _) as [response | e];
    do 3 eexists; (split; [ exact Hrun | ]); cbn; repeat split; try done.
  destruct response as [[t|]]; cbn [or_else Response.text]; [ | done ].
  by destruct (String.eqb_spec t "").
Qed.

(** X5. The model message [sendMessage] appends holds the response text
    (the apology when that text is missing or empty) if the request
    succeeds, and nothing is logged; if the request fails it holds the
    fixed connection-error text and the error is logged to the console. *)
Theorem sendMessage_reply env message st :
  let st' := snd (sendMessage env message st) in
  match generateContent env (length (requests st)) (chat_request (sources st) (history st) message) with
  | Resolved response =>
      ChatMessage.text <$> last (history st')
      = Some (or_else (Response.text response)
                "I couldn't generate a response based on these sources.")
      ∧ console st' = console st
  | Failed e =>
      ChatMessage.text <$> last (history st')
      = Some "I encountered an error connecting to the Nexus core. Please check your connection or API Key."%string
      ∧ console st' = console st ++ [e]
  end.
Proof.
  cbv zeta. rewrite sendMessage_run. cbv zeta.
  destruct (generateContent env _ _) as [response | e]; cbn [snd history console];
    (split; [ | done ]);
    rewrite last_app_cons; reflexivity.
Qed.

(** ** Studio *)

Lemma studio_task_json task :
  (studio_task task).2 = bool_decide (task = quiz ∨ task = flashcards).
Proof. destruct task; reflexivity. Qed.

Lemma or_else_nonempty a b : b ≠ ""%string → or_else a b ≠ ""%string.
Proof.
  intros Hb. destruct a as [t|]; cbn [or_else]; [ | done ].
  by destruct (String.eqb_spec t "").
Qed.

(** X6. When [generateStudioContent] resolves, the content is never the
    empty string: it is the response text, or, when that text is missing
    or empty, "[]" for the quiz and flashcards tasks and "Failed to
    generate content." for every other task.  The title is the one of the
    task, exactly one request is sent, and the call fails exactly when
    that request fails. *)
Theorem generateStudioContent_result env sources task st :
  let request := studio_request sources task in
  match generateStudioContent env sources task st with
  | (Normal result, st') =>
      sc_content result ≠ ""%string
      ∧ sc_title result = (studio_task task).1.2
      ∧ requests st' = requests st ++ [request]
      ∧ ∃ response,
          generateContent env (length (requests st)) request = Resolved response
          ∧ sc_content result
            = or_else (Response.text response)
                (if bool_decide (task = quiz ∨ task = flashcards)
                 then "[]" else "Failed to generate content.")
  | (Throw e, st') =>
      generateContent env (length (requests st)) request = Failed e
      ∧ requests st' = requests st ++ [request]
  end.
Proof.
  cbv zeta. unfold generateStudioContent, studio_request.
  rewrite <- (studio_task_json task).
  destruct (studio_task task) as [[prompt title] isJson]. cbn [fst snd].
  destruct st. ui_run.
  destruct (generateContent env _ _) as [response | e]; ui_run; [ | done ].
  cbn [sc_content sc_title].
  split; [ apply or_else_nonempty; by destruct isJson | ].
  split; [ done | ]. split; [ done | ]. by exists response.
Qed.

(** X7. With no sources [handleGenerateStudio] only posts the notification
    "Add sources first!": it sends no request, saves no note and does not
    touch [isStudioGenerating]. *)
Theorem handleGenerateStudio_without_sources env task st :
  sources st = [] →
  ∃ st',
    handleGenerateStudio env task st = (Normal tt, st')
    ∧ notifications st' = "Add sources first!"%string :: notifications st
    ∧ timers st' = S (timers st)
    ∧ requests st' = requests st
    ∧ notes st' = notes st
    ∧ isStudioGenerating st' = isStudioGenerating st.
Proof.
  intros Hs. eexists. split; [ by apply handleGenerateStudio_no_sources | ].
  by destruct st.
Qed.

Lemma handleGenerateStudio_without_sources_witness :
  ∃ st',
    handleGenerateStudio env_silent quiz initial_state = (Normal tt, st')
    ∧ notifications st' = "Add sources first!"%string :: notifications initial_state
    ∧ timers st' = S (timers initial_state)
    ∧ requests st' = requests initial_state
    ∧ notes st' = notes initial_state
    ∧ isStudioGenerating st' = isStudioGenerating initial_state.
Proof.
  apply (handleGenerateStudio_without_sources env_silent quiz initial_state).
  reflexivity.
Defined.

(** X8. With sources and a request that succeeds, [handleGenerateStudio]
    puts one new note in front of the notes: its title is the task's, its
    content the generated content (the fallback when the response text is
    missing or empty), its tags the task alone, and its type
    'studio_output' exactly for quiz and flashcards, which are exactly the
    tasks whose request asked for application/json.  The newest
    notification announces the title, one request was sent, and
    [isStudioGenerating] is false at the end. *)
Theorem handleGenerateStudio_saves env task st response :
  sources st ≠ [] →
  generateContent env (length (requests st)) (studio_request (sources st) task) = Resolved response →
  ∃ note st',
    handleGenerateStudio env task st = (Normal tt, st')
    ∧ notes st' = note :: notes st
    ∧ Note.title note = (studio_task task).1.2
    ∧ Note.content note
      = or_else (Response.text response)
          (if bool_decide (task = quiz ∨ task = flashcards)
           then "[]" else "Failed to generate content.")
    ∧ Note.tags note = Some [task]
    ∧ (Note.type note = studio_output ↔ task = quiz ∨ task = flashcards)
    ∧ (Note.type note = studio_output ↔
       config (studio_request (sources st) task) ≫= responseMimeType
       = Some "application/json"%string)
    ∧ head (notifications st') = Some ((studio_task task).1.2 ++ " created!")%string
    ∧ requests st' = requests st ++ [studio_request (sources st) task]
    ∧ isStudioGenerating st' = false.
Proof.
  intros Hne Hreply.
  do 2 eexists. split; [ by apply handleGenerateStudio_resolved | ].
  cbn [notes notifications requests isStudioGenerating head
       Note.title Note.content Note.tags Note.type].
  rewrite studio_task_json.
  repeat split; try done; destruct task; cbn;
    first [ done
          | intros [H | H]; first [ discriminate H | reflexivity ]
          | intros H; first [ discriminate H | reflexivity | by left | by right ] ].
Qed.

Lemma handleGenerateStudio_saves_witness :
  ∃ note st',
    handleGenerateStudio env_silent quiz st_one_source = (Normal tt, st')
    ∧ notes st' = note :: notes st_one_source
    ∧ Note.title note = "Practice Quiz"%string
    ∧ Note.content note = "[]"%string
    ∧ Note.tags note = Some [quiz]
    ∧ (Note.type note = studio_output ↔ quiz = quiz ∨ quiz = flashcards)
    ∧ (Note.type note = studio_output ↔
       config (studio_request (sources st_one_source) quiz) ≫= responseMimeType
       = Some "application/json"%string)
    ∧ head (notifications st') = Some "Practice Quiz created!"%string
    ∧ requests st' = requests st_one_source
                     ++ [studio_request (sources st_one_source) quiz]
    ∧ isStudioGenerating st' = false.
Proof.
  apply (handleGenerateStudio_saves env_silent quiz st_one_source
           {| Response.text := None |}).
  - discriminate.
  - reflexivity.
Defined.

(** X9. With sources and a request that fails, [handleGenerateStudio]
    still returns normally: no note is saved, the newest notification is
    "Failed to generate content.", the error is logged to the console, and
    [isStudioGenerating] is false at the end. *)
Theorem handleGenerateStudio_failure env task st e :
  sources st ≠ [] →
  generateContent env (length (requests st)) (studio_request (sources st) task) = Failed e →
  ∃ st',
    handleGenerateStudio env task st = (Normal tt, st')
    ∧ notes st' = notes st
    ∧ head (notifications st') = Some "Failed to generate content."%string
    ∧ console st' = console st ++ [e]
    ∧ requests st' = requests st ++ [studio_request (sources st) task]
    ∧ isStudioGenerating st' = false.
Proof.
  intros Hne Hreply.
  eexists. split; [ by apply handleGenerateStudio_rejected | ]. done.
Qed.

Lemma handleGenerateStudio_failure_witness :
  ∃ st',
    handleGenerateStudio env_down summary st_one_source = (Normal tt, st')
    ∧ notes st' = notes st_one_source
    ∧ head (notifications st') = Some "Failed to generate content."%string
    ∧ console st' = console st_one_source ++ [Rejected "503"]
    ∧ requests st' = requests st_one_source
                     ++ [studio_request (sources st_one_source) summary]
    ∧ isStudioGenerating st' = false.
Proof.
  apply (handleGenerateStudio_failure env_down summary st_one_source (Rejected "503")).
  - discriminate.
  - reflexivity.
Defined.

(** ** Sources *)

Lemma filter_ids_absent (l : list Source) id' :
  id' ∉ (id <$> l) → filter (λ s, id s ≠ id') l = l.
Proof.
  induction l as [|s l IH]; [ done | ].
  rewrite fmap_cons, not_elem_of_cons. intros [Hs Hl].
  rewrite filter_cons_True by done. by rewrite IH.
Qed.

(** X10. Removing the source that [addSource] has just added gives back
    the earlier list of sources, provided the identifier drawn for it is
    not the identifier of an earlier source. *)
Theorem removeSource_undoes_addSource env name content mimeType data st :
  randomUUID env (uuids_drawn st) ∉ (id <$> sources st) →
  sources (snd (removeSource (randomUUID env (uuids_drawn st))
                  (snd (addSource env name content mimeType data st))))
  = sources st.
Proof.
  intros Hfresh. destruct st. cbn [sources uuids_drawn] in *.
  unfold removeSource, addSource. ui_run.
  rewrite filter_app, filter_ids_absent by done.
  rewrite filter_cons_False by (cbn [id]; by intros []).
  by rewrite filter_nil, app_nil_r.
Qed.

Lemma removeSource_undoes_addSource_witness :
  sources (snd (removeSource (randomUUID env_silent (uuids_drawn st_one_source))
                  (snd (addSource env_silent "b.txt" "text" "text/plain" None
                          st_one_source))))
  = sources st_one_source.
Proof.
  apply (removeSource_undoes_addSource env_silent "b.txt" "text" "text/plain" None
           st_one_source).
  vm_compute. intros Hin. inversion Hin as [| ? ? ? Hnil]; inversion Hnil.
Defined.

(** X11. When the identifiers of the sources are pairwise distinct,
    [removeSource] with the identifier of one of them removes that source
    and nothing else: the sources before and after it keep their order. *)
Theorem removeSource_removes_one (st : AppState) l1 s l2 :
  NoDup (id <$> sources st) →
  sources st = l1 ++ s :: l2 →
  sources (snd (removeSource (id s) st)) = l1 ++ l2.
Proof.
  intros Hnd Hsplit. destruct st. cbn [sources] in *. subst.
  unfold removeSource. ui_run.
  rewrite fmap_app, fmap_cons in Hnd.
  apply NoDup_app in Hnd as (_ & Hl1 & Hnd).
  apply NoDup_cons in Hnd as [Hl2 _].
  rewrite filter_app, filter_cons_False by (by intros []).
  rewrite !filter_ids_absent; [ done | done | ].
  intros Hin. apply (Hl1 _ Hin). by left.
Qed.

Lemma removeSource_removes_one_witness :
  sources (snd (removeSource (id pdf_source)
                  (set_sources (λ _, [source0; pdf_source; pdf_without_data])
                     initial_state)))
  = [source0] ++ [pdf_without_data].
Proof.
  apply (removeSource_removes_one
           (set_sources (λ _, [source0; pdf_source; pdf_without_data]) initial_state)
           [source0] pdf_source [pdf_without_data]).
  - compute_done.
  - reflexivity.
Defined.

(** X12. [removeSource] with an identifier no source has changes nothing
    at all. *)
Theorem removeSource_absent (st : AppState) id' :
  id' ∉ (id <$> sources st) →
  removeSource id' st = (Normal tt, st).
Proof.
  intros Habsent. destruct st. cbn [sources] in *.
  unfold removeSource. ui_run. by rewrite filter_ids_absent.
Qed.

Lemma removeSource_absent_witness :
  removeSource "nobody" st_one_source = (Normal tt, st_one_source).
Proof.
  apply (removeSource_absent st_one_source "nobody").
  vm_compute. intros Hin. inversion Hin as [| ? ? ? Hnil]; inversion Hnil.
Defined.

(** ** Reachable states *)

Lemma run_actions_cons env a actions st :
  run_actions env (a :: actions) st
  = run_actions env actions (snd (handler env a st)).
Proof. reflexivity. Qed.

Lemma run_actions_snoc env actions a st :
  run_actions env (actions ++ [a]) st
  = snd (handler env a (run_actions env actions st)).
Proof. unfold run_actions. by rewrite foldl_snoc. Qed.

Lemma run_actions_invariant env (P : AppState → Prop) :
  (∀ a st, P st → P (snd (handler env a st))) →
  ∀ actions st, P st → P (run_actions env actions st).
Proof.
  intros Hstep actions. induction actions as [|a actions IH]; intros st Hst.
  - exact Hst.
  - rewrite run_actions_cons. apply IH, Hstep, Hst.
Qed.

Lemma handler_expires st env :
  handler env NotificationExpires st
  = if decide (timers st = 0%nat) then (Normal tt, st)
    else (Normal tt,
          set_notifications (λ prev, take (length prev - 1) prev)
            (set_timers Nat.pred st)).
Proof.
  change (handler env NotificationExpires st)
    with ((if decide (timers st = 0%nat) then mret tt else notification_expires) st).
  by destruct (decide (timers st = 0%nat)).
Qed.

(** The possible outcomes of one action, handler by handler. *)
Ltac handler_cases env a st :=
  destruct a as [name content mimeType data | id' | message | task | ];
  [ cbn [handler]; rewrite handleAddSource_run
  | cbn [handler]; unfold removeSource, ui_update
  | cbn [handler]; rewrite sendMessage_run; cbv zeta;
    destruct (generateContent env (length (requests st)) (chat_request (sources st) (history st) message))
  | cbn [handler];
    destruct (decide (sources st = [])) as [Hnone | Hsome];
    [ rewrite (handleGenerateStudio_no_sources env task st Hnone)
    | destruct (generateContent env (length (requests st)) (studio_request (sources st) task)) eqn:Hreply;
      [ rewrite (handleGenerateStudio_resolved env task st _ Hsome Hreply)
      | rewrite (handleGenerateStudio_rejected env task st _ Hsome Hreply) ] ]
  | rewrite handler_expires; destruct (decide (timers st = 0%nat)) ];
  cbn [snd sources notes history isGeneratingChat hasFetchedQuestions
       notifications isStudioGenerating timers requests console uuids_drawn
       clock_reads set_sources set_notifications set_timers].

Lemma notifications_timers_step env a st :
  length (notifications st) = timers st →
  length (notifications (snd (handler env a st))) = timers (snd (handler env a st)).
Proof.
  intros Hinv. handler_cases env a st; cbn [length]; try lia.
  rewrite length_take. lia.
Qed.

Lemma notifications_all_expire env n : ∀ st,
  length (notifications st) = n → timers st = n →
  notifications (run_actions env (replicate n NotificationExpires) st) = [].
Proof.
  induction n as [|n IH]; intros st Hlen Htimers.
  - cbn. by apply nil_length_inv.
  - cbn [replicate]. rewrite run_actions_cons. apply IH.
    + rewrite handler_expires, decide_False by lia.
      cbn [snd notifications set_notifications set_timers].
      rewrite length_take. lia.
    + rewrite handler_expires, decide_False by lia.
      cbn [snd timers set_notifications set_timers]. lia.
Qed.

(** X13. In every state the application reaches from its initial state,
    whatever the service answers, there are exactly as many notifications
    as pending expiry timers; and once those timers have fired no
    notification is left. *)
Theorem notifications_expire env actions :
  let st := run_actions env actions initial_state in
  length (notifications st) = timers st
  ∧ notifications (run_actions env (replicate (timers st) NotificationExpires) st) = [].
Proof.
  cbv zeta.
  assert (Hinv : length (notifications (run_actions env actions initial_state))
                 = timers (run_actions env actions initial_state)).
  { apply (run_actions_invariant env (λ st, length (notifications st) = timers st));
      [ apply notifications_timers_step | reflexivity ]. }
  split; [ exact Hinv | ]. by apply notifications_all_expire.
Qed.

(** X14. Between actions nothing is marked as in progress: in every
    reachable state [isGeneratingChat] and [isStudioGenerating] are false,
    whether the requests made on the way succeeded or failed. *)
Theorem handlers_settle env actions :
  let st := run_actions env actions initial_state in
  isGeneratingChat st = false ∧ isStudioGenerating st = false.
Proof.
  cbv zeta.
  apply (run_actions_invariant env
           (λ st, isGeneratingChat st = false ∧ isStudioGenerating st = false));
    [ | done ].
  intros a st [Hchat Hstudio]. by handler_cases env a st.
Qed.

Lemma chat_turns_S n : chat_turns (S n) = chat_turns n ++ [Role.user; Role.model].
Proof.
  unfold chat_turns. cbn [replicate].
  rewrite replicate_cons_app, join_app. reflexivity.
Qed.

Lemma sent_snoc actions a :
  sent (actions ++ [a]) = (sent actions + if is_send a then 1 else 0)%nat.
Proof.
  unfold sent. rewrite filter_app, length_app. f_equal.
  destruct a; reflexivity.
Qed.

Lemma history_roles_reachable env actions :
  ChatMessage.role <$> history (run_actions env actions initial_state)
  = chat_turns (sent actions).
Proof.
  induction actions as [|a actions IH] using rev_ind; [ done | ].
  rewrite run_actions_snoc, sent_snoc.
  set (st := run_actions env actions initial_state) in *.
  handler_cases env a st; cbn [is_send]; rewrite ?Nat.add_0_r; try done.
  - rewrite Nat.add_1_r, chat_turns_S, fmap_app, IH. reflexivity.
  - rewrite Nat.add_1_r, chat_turns_S, fmap_app, IH. reflexivity.
Qed.

(** X15. In every reachable state the history consists of one user message
    followed by one model message for each [sendMessage] made so far, in
    order: its roles read user, model, user, model, ... *)
Theorem history_alternates env actions :
  let st := run_actions env actions initial_state in
  ChatMessage.role <$> history st = chat_turns (sent actions)
  ∧ length (history st) = (2 * sent actions)%nat.
Proof.
  cbv zeta. pose proof (history_roles_reachable env actions) as Hroles.
  split; [ exact Hroles | ].
  rewrite <- (length_fmap ChatMessage.role), Hroles.
  generalize (sent actions). intros n. induction n as [|n IH]; [ done | ].
  rewrite chat_turns_S, length_app, IH. cbn [length]. lia.
Qed.

(** X16. From every reachable state, the conversation [sendMessage] sends
    alternates strictly between user and model turns: it starts with the
    instruction turn of the user, and ends with the new message as a user
    turn that follows a model turn. *)
Theorem chat_request_alternates env actions message :
  let st := run_actions env actions initial_state in
  role <$> contents (chat_request (sources st) (history st) message)
  = (λ r, Some (role_string r)) <$> (chat_turns (S (sent actions)) ++ [Role.user]).
Proof.
  cbv zeta. cbn [chat_request contents]. unfold chat_contents.
  change (chat_turns (S (sent actions)))
    with ([Role.user; Role.model] ++ chat_turns (sent actions)).
  rewrite <- (history_roles_reachable env actions).
  set (h := history (run_actions env actions initial_state)).
  rewrite !fmap_app, <- !list_fmap_compose. cbn [fmap list_fmap].
  do 2 f_equal.
Qed.

Section DrawnIds.
Variable env : Env.
Hypothesis uuid_inj : Inj (=) (=) (randomUUID env).

Lemma drawn_ids_add ids n :
  drawn_ids env ids n → drawn_ids env (randomUUID env n :: ids) (S n).
Proof.
  intros [Hnd Hdrawn]. split.
  - apply NoDup_cons. split; [ | done ].
    intros (k & Hk & Heq)%Hdrawn. apply uuid_inj in Heq. lia.
  - intros x [-> | (k & Hk & ->)%Hdrawn]%elem_of_cons.
    + exists n. split; [ lia | done ].
    + exists k. split; [ lia | done ].
Qed.

Lemma drawn_ids_perm ids ids' n :
  ids' ≡ₚ ids → drawn_ids env ids n → drawn_ids env ids' n.
Proof.
  intros Hperm [Hnd Hdrawn]. split; [ by rewrite Hperm | ].
  intros x Hx. apply Hdrawn. by rewrite <- Hperm.
Qed.

Lemma drawn_ids_sublist ids ids' n :
  ids' `sublist_of` ids → drawn_ids env ids n → drawn_ids env ids' n.
Proof.
  intros Hsub [Hnd Hdrawn]. split; [ by eapply sublist_NoDup | ].
  intros x Hx. apply Hdrawn. by eapply elem_of_sublist.
Qed.

Lemma drawn_ids_step a st :
  drawn_ids env (all_ids st) (uuids_drawn st) →
  drawn_ids env (all_ids (snd (handler env a st)))
    (uuids_drawn (snd (handler env a st))).
Proof.
  intros Hinv. unfold all_ids in *.
  handler_cases env a st; try exact Hinv.
  - eapply drawn_ids_perm; cycle 1; [ by apply drawn_ids_add | ].
    rewrite fmap_app. cbn [fmap list_fmap id]. solve_Permutation.
  - eapply drawn_ids_sublist; [ | exact Hinv ].
    apply sublist_app; [ | done ]. apply fmap_sublist, sublist_filter.
  - eapply drawn_ids_perm; cycle 1; [ by do 2 apply drawn_ids_add | ].
    rewrite fmap_app. cbn [fmap list_fmap ChatMessage.id]. solve_Permutation.
  - eapply drawn_ids_perm; cycle 1; [ by do 2 apply drawn_ids_add | ].
    rewrite fmap_app. cbn [fmap list_fmap ChatMessage.id]. solve_Permutation.
  - eapply drawn_ids_perm; cycle 1; [ by apply drawn_ids_add | ].
    cbn [fmap list_fmap Note.id]. solve_Permutation.
Qed.

End DrawnIds.

(** X17. If [crypto.randomUUID()] never returns the same value twice, then
    in every reachable state the identifiers of all sources, notes and
    chat messages are pairwise distinct, also after sources were
    removed. *)
Theorem ids_unique env actions :
  Inj (=) (=) (randomUUID env) →
  NoDup (all_ids (run_actions env actions initial_state)).
Proof.
  intros Hinj.
  apply (run_actions_invariant env
           (λ st, drawn_ids env (all_ids st) (uuids_drawn st))).
  - intros a st. by apply drawn_ids_step.
  - split; [ constructor | ]. intros x Hx. by apply elem_of_nil in Hx.
Qed.

Lemma ids_unique_witness :
  NoDup (all_ids (run_actions env_silent
                    [AddSource "a.txt" "alpha" "text/plain" None;
                     SendMessage "hello"; GenerateStudio quiz;
                     AddSource "b.pdf" "" "application/pdf" (Some "JVBERi0="%string);
                     RemoveSource "0"]
                    initial_state)).
Proof.
  apply (ids_unique env_silent).
  intros x y Hxy. cbn in Hxy. by apply (inj pretty) in Hxy.
Defined.

(** ** From sources to the audio overview *)

(** X18. Once [addSource] has run, [generateAudio] on the resulting sources
    does not return early: it sets the state 'generating_script' and asks
    the script service for a script of all sources, the new one
    included. *)
Theorem generateAudio_after_addSource env name content mimeType data st
    cenv language w :
  let srcs := sources (snd (addSource env name content mimeType data st)) in
  ∃ added w',
    srcs = sources st ++ [added]
    ∧ generateAudio cenv srcs language w = (Normal tt, w')
    ∧ SetAudioOverview st_generating ∈ trace w'
    ∧ Call_generatePodcastScript srcs (default "English"%string language) ∈ trace w'.
Proof.
  cbv zeta.
  assert (Hsrcs : ∃ added,
    sources (snd (addSource env name content mimeType data st)) = sources st ++ [added]).
  { destruct st. eexists. reflexivity. }
  destruct Hsrcs as [added Hsrcs]. rewrite Hsrcs.
  destruct (generateAudio_cases cenv (sources st ++ [added]) language w)
    as (evs & w' & Hrun & Htrace & Hcases).
  exists added, w'. split; [ done | ]. split; [ done | ]. rewrite Htrace.
  destruct Hcases as [(Hnil & _) | [(e & _ & _ & ->)
    | [(script & e & _ & _ & _ & ->) | (script & pcm & url & _ & _ & _ & ->)]]].
  - by destruct (sources st).
  - split; apply elem_of_app; right; rewrite !elem_of_cons; auto.
  - split; apply elem_of_app; right; rewrite !elem_of_cons; auto.
  - split; apply elem_of_app; right; rewrite !elem_of_cons; auto.
Qed.

(** ** The viewers of the studio *)

(** X19. In [FlashcardViewer], for a non-empty deck, the index stays a
    valid card position under every sequence of clicks on the two arrows,
    starting from the first card. *)
Theorem flashcard_index_in_range len clicks :
  0 < len →
  0 ≤ foldl (flashcard_click len) 0 clicks < len.
Proof.
  intros Hlen.
  assert (Hgen : ∀ index, 0 ≤ index < len →
                          0 ≤ foldl (flashcard_click len) index clicks < len).
  { induction clicks as [|c clicks IH]; intros index Hindex; [ done | ].
    cbn [foldl]. apply IH.
    destruct c; unfold flashcard_click, flashcard_prev, flashcard_next; lia. }
  apply Hgen. lia.
Qed.

Lemma flashcard_index_in_range_witness :
  0 ≤ foldl (flashcard_click 3) 0 [ClickPrev; ClickNext; ClickNext; ClickNext; ClickNext] < 3.
Proof.
  apply (flashcard_index_in_range 3
           [ClickPrev; ClickNext; ClickNext; ClickNext; ClickNext]).
  lia.
Defined.

Lemma dom_answers_after selections :
  dom (answers_after selections) = list_to_set (C := gset nat) (selections.*1).
Proof.
  unfold answers_after.
  induction selections as [|sel selections IH] using rev_ind.
  - cbn. apply dom_empty_L.
  - rewrite foldl_snoc, fmap_app, list_to_set_app_L.
    unfold handleSelect at 1. rewrite dom_insert_L, IH.
    cbn [fmap list_fmap list_to_set]. rewrite (right_id_L ∅ (∪)).
    apply (comm_L (∪)).
Qed.

(** X20. In [QuizViewer], as long as selections are made for questions of
    the quiz, the check button is enabled exactly when every question has
    been selected at least once; selecting a question again replaces its
    answer and does not count twice. *)
Theorem quiz_check_enabled questions selections :
  Forall (λ sel, sel.1 < length questions)%nat selections →
  check_disabled questions (answers_after selections) = false
  ↔ ∀ i, (i < length questions)%nat → i ∈ selections.*1.
Proof.
  intros Hrange. unfold check_disabled.
  rewrite bool_decide_eq_false, <- size_dom, dom_answers_after.
  set (chosen := list_to_set (C := gset nat) (selections.*1)).
  assert (Hsub : chosen ⊆ set_seq 0 (length questions)).
  { intros i Hi. apply elem_of_list_to_set in Hi.
    apply list_elem_of_fmap in Hi as (sel & -> & Hsel).
    apply elem_of_set_seq. rewrite Forall_forall in Hrange.
    specialize (Hrange _ Hsel). lia. }
  split.
  - intros Hsize i Hi.
    assert (Heq : chosen = set_seq 0 (length questions)).
    { apply set_subseteq_size_eq; [ done | ]. rewrite size_set_seq. lia. }
    apply (elem_of_list_to_set (C := gset nat)). fold chosen. rewrite Heq.
    apply elem_of_set_seq. lia.
  - intros Hall.
    assert (Hsup : set_seq 0 (length questions) ⊆ chosen).
    { intros i Hi%elem_of_set_seq. apply elem_of_list_to_set, Hall. lia. }
    apply subseteq_size in Hsup. rewrite size_set_seq in Hsup. lia.
Qed.

Lemma quiz_check_enabled_witness :
  check_disabled quiz0 (answers_after [(0%nat, "1"); (1%nat, "4"); (0%nat, "2")]%string)
  = false
  ↔ ∀ i, (i < length quiz0)%nat
         → i ∈ ([(0%nat, "1"); (1%nat, "4"); (0%nat, "2")]%string).*1.
Proof.
  apply (quiz_check_enabled quiz0 [(0%nat, "1"); (1%nat, "4"); (0%nat, "2")]%string).
  repeat constructor.
Defined.

Lemma length_filter_all {A} (P : A → Prop) `{!∀ x, Decision (P x)} (l : list A) :
  length (filter P l) = length l ↔ Forall P l.
Proof.
  induction l as [|x l IH]; [ by split | ].
  destruct (decide (P x)) as [Hx | Hx].
  - rewrite filter_cons_True by done. cbn [length].
    rewrite Forall_cons. split.
    + intros Hlen. split; [ done | ]. apply IH. lia.
    + intros [_ Hl%IH]. lia.
  - rewrite filter_cons_False by done. cbn [length].
    pose proof (length_filter P l). rewrite Forall_cons. split; [ lia | tauto ].
Qed.

(** X21. The quiz score never exceeds the number of questions, and it
    equals that number exactly when every question's recorded answer is
    its correct answer. *)
Theorem quiz_score_full questions answers :
  (score questions answers ≤ length questions)%nat
  ∧ (score questions answers = length questions
     ↔ ∀ i q, questions !! i = Some q → answers !! i = Some (answer q)).
Proof.
  unfold score. split.
  - etrans; [ apply length_filter | ]. by rewrite length_imap.
  - rewrite <- (length_imap pair questions).
    rewrite length_filter_all, Forall_forall. split.
    + intros Hall i q Hq. apply (Hall (i, q)).
      apply list_elem_of_lookup. exists i. by rewrite list_lookup_imap, Hq.
    + intros Hall [i q] Hin. apply list_elem_of_lookup in Hin as [j Hj].
      rewrite list_lookup_imap in Hj.
      destruct (questions !! j) as [q'|] eqn:Hq; [ | done ].
      cbn in Hj. injection Hj as <- <-. cbn. by apply Hall.
Qed.

(** ** Decoding the synthesized audio *)

Lemma fill_bytes_from_run rest : ∀ b i old h a t,
  (i + String.length rest ≤ length old)%nat →
  fill_bytes_from {| buffer := b; byteOffset := 0 |} i rest
    (World (<[b := old]> h) a t)
  = (Normal tt, World (<[b := splice i (ascii_bytes rest) old]> h) a t).
Proof.
  induction rest as [|c rest IH]; intros b i old h a t Hle; cbn [String.length] in Hle.
  - cbn [fill_bytes_from]. rewrite splice_nil by lia. reflexivity.
  - cbn [fill_bytes_from].
    erewrite bind_Normal.
    2: { unfold Uint8Array_put. cbn [heap buffer byteOffset].
         rewrite lookup_insert_eq, decide_True by lia.
         apply (store_insert {| buffer := b; byteOffset := 0 |}).
         simpl; lia. }
    cbn [byteOffset Nat.add buffer].
    rewrite IH by (rewrite length_splice; simpl; lia).
    change (int_bytes 1 (charCode c) true) with [byte.of_Z (charCode c)].
    rewrite splice_snoc by (rewrite length_ascii_bytes; lia).
    reflexivity.
Qed.

Lemma bind_Throw {A B} (c : M A) (k : A → M B) w e w' :
  c w = (Throw e, w') → (c ≫= k) w = (Throw e, w').
Proof. intros Hc. unfold mbind, M_bind. by rewrite Hc. Qed.

Lemma decodeInlineAudio_run atob data binaryString w :
  data ≠ ""%string →
  atob data = Resolved binaryString →
  decodeInlineAudio atob (Some data) w
  = (Normal (fresh (dom (heap w))),
     set_heap (<[fresh (dom (heap w)) := ascii_bytes binaryString]>) w).
Proof.
  intros Hdata Hatob. destruct w as [h a t].
  unfold decodeInlineAudio.
  change (default ""%string (Some data)) with data.
  cbn [truthy]. rewrite (proj2 (String.eqb_neq _ _) Hdata). cbn [negb].
  erewrite bind_Normal; [ | by rewrite Hatob ]. cbv zeta.
  erewrite bind_Normal; [ | reflexivity ].
  unfold set_heap; cbn [heap audioOverview trace].
  erewrite bind_Normal;
    [ | eapply new_Uint8Array_run;
        [ cbn [heap]; apply lookup_insert_eq | lia ] ].
  erewrite bind_Normal;
    [ | apply fill_bytes_from_run; rewrite length_replicate; lia ].
  cbn [mret M_ret]. do 3 f_equal.
  unfold splice. cbn [take firstn app Nat.add].
  rewrite length_ascii_bytes, drop_replicate_all. apply app_nil_r.
Qed.

(** X22. [synthesizePodcastAudio]'s decoding step: when the inline data is
    missing or empty it throws "No audio data generated" without
    allocating anything; when the decoder throws, that error is thrown;
    otherwise it returns a new buffer that holds exactly the character
    codes of the decoded string, one byte per character, and no other
    buffer is changed. *)
Theorem decodeInlineAudio_result atob base64Audio w :
  (truthy base64Audio = false →
   decodeInlineAudio atob base64Audio w
   = (Throw (Rejected "No audio data generated"), w))
  ∧ (∀ data e,
       base64Audio = Some data → data ≠ ""%string → atob data = Failed e →
       decodeInlineAudio atob base64Audio w = (Throw e, w))
  ∧ (∀ data binaryString,
       base64Audio = Some data → data ≠ ""%string →
       atob data = Resolved binaryString →
       ∃ out w',
         decodeInlineAudio atob base64Audio w = (Normal out, w')
         ∧ heap w !! out = None
         ∧ heap w' !! out = Some (ascii_bytes binaryString)
         ∧ length (ascii_bytes binaryString) = String.length binaryString
         ∧ (∀ l, l ≠ out → heap w' !! l = heap w !! l)
         ∧ trace w' = trace w).
Proof.
  split; [ | split ].
  - intros Hfalsy. unfold decodeInlineAudio. by rewrite Hfalsy.
  - intros data e -> Hdata Hatob. unfold decodeInlineAudio.
    change (default ""%string (Some data)) with data.
  cbn [truthy]. rewrite (proj2 (String.eqb_neq _ _) Hdata). cbn [negb].
    erewrite bind_Throw; [ reflexivity | ]. by rewrite Hatob.
  - intros data binaryString -> Hdata Hatob.
    do 2 eexists. split; [ by apply decodeInlineAudio_run | ].
    cbn [set_heap heap trace].
    split; [ apply not_elem_of_dom, is_fresh | ].
    split; [ apply lookup_insert_eq | ].
    split; [ apply length_ascii_bytes | ].
    split; [ | done ]. intros l Hl. by rewrite lookup_insert_ne.
Qed.

(** X23. Decoding and then wrapping with the parameters [generateAudio]
    uses gives a WAV buffer of 44 + n bytes for a decoded string of n
    characters, whose payload is the decoded bytes and whose data-size
    field holds n (modulo 2^32). *)
Theorem decode_then_addWavHeader atob data binaryString w :
  data ≠ ""%string →
  atob data = Resolved binaryString →
  ∃ audioBuffer w1 wav,
    decodeInlineAudio atob (Some data) w = (Normal audioBuffer, w1)
    ∧ returned_bytes (addWavHeader audioBuffer 24000 1 w1) = Some wav
    ∧ length wav = (44 + String.length binaryString)%nat
    ∧ slice 44 (44 + String.length binaryString) wav = ascii_bytes binaryString
    ∧ uint32_le_at 40 wav = Some (Z.of_nat (String.length binaryString) mod 2 ^ 32).
Proof.
  intros Hdata Hatob.
  do 2 eexists.
  exists (wav_header (length (ascii_bytes binaryString)) 24000 1
          ++ ascii_bytes binaryString).
  split; [ by apply decodeInlineAudio_run | ].
  split; [ apply addWavHeader_returns; cbn [set_heap heap]; apply lookup_insert_eq | ].
  rewrite <- (length_ascii_bytes binaryString).
  split; [ by rewrite length_app, length_wav_header | ].
  split; [ apply wav_payload | ].
  apply wav_header_fields.
Qed.

Lemma decode_then_addWavHeader_witness :
  ∃ audioBuffer w1 wav,
    decodeInlineAudio atob0 (Some "AQACAA=="%string) w0 = (Normal audioBuffer, w1)
    ∧ returned_bytes (addWavHeader audioBuffer 24000 1 w1) = Some wav
    ∧ length wav = 48%nat
    ∧ slice 44 48 wav = [Byte.x01; Byte.x00; Byte.x02; Byte.x00]
    ∧ uint32_le_at 40 wav = Some 4.
Proof.
  apply (decode_then_addWavHeader atob0 "AQACAA=="
           (String (ascii_of_nat 1) (String (ascii_of_nat 0)
              (String (ascii_of_nat 2) (String (ascii_of_nat 0) EmptyString)))) w0).
  - discriminate.
  - reflexivity.
Defined.
